(** * Blueqat gate module: qubit addressing and the gate taxonomy

    A shallow embedding of [blueqat/gate.py]: the Python values that reach
    the addressing functions, the exceptions they raise, the generators
    [slicing_singlevalue] and [slicing], [qubit_pairs], [get_maximum_index],
    [find_n_qubits], and the [Gate] class hierarchy with its constructor and
    [fallback] method. *)

From Stdlib Require Import ZArith List String Bool Lia DecimalString.
Import ListNotations.
Open Scope Z_scope.

#[local] Set Warnings "-register-all".

(** ** Python values *)

(** The objects a circuit hands to this module as qubit specifiers.
    [PInt] stands for every object with an [__index__] method, [PSlice] for
    a [slice] whose three fields are integers or [None], [PTuple] for a
    tuple, and [PObj cls] for any other object (a float, a string, [None]),
    known only by the name of its class. *)
Inductive pyobj : Type :=
| PInt (i : Z)
| PSlice (start stop step : option Z)
| PTuple (items : list pyobj)
| PObj (cls : string).

(** [arg.__class__.__name__] *)
Definition class_name (o : pyobj) : string :=
  match o with
  | PInt _ => "int"
  | PSlice _ _ _ => "slice"
  | PTuple _ => "tuple"
  | PObj cls => cls
  end.

Definition is_slice (o : pyobj) : bool :=
  match o with PSlice _ _ _ => true | _ => false end.

Definition is_tuple (o : pyobj) : bool :=
  match o with PTuple _ => true | _ => false end.

Definition is_int (o : pyobj) : bool :=
  match o with PInt _ => true | _ => false end.

(** ** Exceptions and outcomes *)

Inductive exn : Type :=
| ValueError (msg : string)
| TypeError (msg : string)
| IndexError (msg : string)
| AttributeError (msg : string)
| NotImplementedError (msg : string).

(** What running a piece of the module gives: a value, a raised exception,
    or [Fuel] when a [while] loop was cut off by the step budget of the
    model (the Python loop would still be running). *)
Inductive outcome (A : Type) : Type :=
| Ok (a : A)
| Raise (e : exn)
| Fuel.
Arguments Ok {A} a.
Arguments Raise {A} e.
Arguments Fuel {A}.

Definition bind {A B : Type} (m : outcome A) (k : A -> outcome B) : outcome B :=
  match m with
  | Ok a => k a
  | Raise e => Raise e
  | Fuel => Fuel
  end.

Notation "x <- m ;; k" := (bind m (fun x => k))
  (at level 61, m at next level, right associativity).
Notation "' pat <- m ;; k" := (bind m (fun x => match x with pat => k end))
  (at level 61, pat pattern, m at next level, right associativity).

(** Running a computation on each element in order; the first exception
    ends the run, as when a generator is consumed by [list] or [max]. *)
Fixpoint mapM {A B : Type} (f : A -> outcome B) (l : list A) : outcome (list B) :=
  match l with
  | [] => Ok []
  | a :: l' => b <- f a ;; bs <- mapM f l' ;; Ok (b :: bs)
  end.

Definition is_value_error {A : Type} (m : outcome A) : bool :=
  match m with Raise (ValueError _) => true | _ => false end.

Definition is_type_error {A : Type} (m : outcome A) : bool :=
  match m with Raise (TypeError _) => true | _ => false end.

Definition is_index_error {A : Type} (m : outcome A) : bool :=
  match m with Raise (IndexError _) => true | _ => false end.

Definition is_not_implemented {A : Type} (m : outcome A) : bool :=
  match m with Raise (NotImplementedError _) => true | _ => false end.

Definition raises {A : Type} (m : outcome A) : bool :=
  match m with Raise _ => true | _ => false end.

(** ** Built-ins of the language used by the module *)

(** [o.__index__()]: only integers have the method. *)
Definition py_index (o : pyobj) : outcome Z :=
  match o with
  | PInt i => Ok i
  | _ => Raise (AttributeError
                  ("'" ++ class_name o ++ "' object has no attribute '__index__'")%string)
  end.

(** One bound of [slice.indices]: a negative value is offset by the length
    and held at [lower], a non-negative one is held at [upper]. *)
Definition adjust_bound (v length lower upper : Z) : Z :=
  if v <? 0 then
    let v' := v + length in
    if v' <? lower then lower else v'
  else
    if v >? upper then upper else v.

(** [slice(start, stop, step).indices(length)], after CPython's
    [_PySlice_GetLongIndices]. *)
Definition slice_indices (start stop step : option Z) (length : Z)
  : outcome (Z * Z * Z) :=
  if length <? 0 then Raise (ValueError "length should not be negative") else
  let step' := match step with None => 1 | Some s => s end in
  if step' =? 0 then Raise (ValueError "slice step cannot be zero") else
  let step_is_negative := step' <? 0 in
  let lower := if step_is_negative then -1 else 0 in
  let upper := if step_is_negative then length + -1 else length in
  let start' := match start with
                | None => if step_is_negative then upper else lower
                | Some v => adjust_bound v length lower upper
                end in
  let stop' := match stop with
               | None => if step_is_negative then lower else upper
               | Some v => adjust_bound v length lower upper
               end in
  Ok (start', stop', step').

(** [max(xs)] over integers: the empty sequence is a [ValueError]. *)
Definition py_max (xs : list Z) : outcome Z :=
  match xs with
  | [] => Raise (ValueError "max() arg is an empty sequence")
  | x :: xs' => Ok (fold_left Z.max xs' x)
  end.

(** [max(xs, default=d)] *)
Definition py_max_default (xs : list Z) (d : Z) : Z :=
  match xs with
  | [] => d
  | x :: xs' => fold_left Z.max xs' x
  end.

(** ** The address resolver *)

(** [while i < stop: yield i; i += step], with the values yielded
    collected in order. *)
Fixpoint while_lt (fuel : nat) (i stop step : Z) : outcome (list Z) :=
  match fuel with
  | O => Fuel
  | S fuel' =>
      if i <? stop then
        rest <- while_lt fuel' (i + step) stop step ;; Ok (i :: rest)
      else Ok []
  end.

(** [while i > stop: yield i; i += step] *)
Fixpoint while_gt (fuel : nat) (i stop step : Z) : outcome (list Z) :=
  match fuel with
  | O => Fuel
  | S fuel' =>
      if i >? stop then
        rest <- while_gt fuel' (i + step) stop step ;; Ok (i :: rest)
      else Ok []
  end.

(** [slicing_singlevalue(arg, length)], consumed to the end: the list of
    the values the generator yields, or the exception that ends it. *)
Definition slicing_singlevalue (fuel : nat) (arg : pyobj) (length : Z)
  : outcome (list Z) :=
  match arg with
  | PSlice start stop step =>
      '(start, stop, step) <- slice_indices start stop step length ;;
      let i := start in
      if step >? 0 then while_lt fuel i stop step
      else while_gt fuel i stop step
  | _ =>
      i <- match py_index arg with
           | Raise (AttributeError _) =>
               Raise (TypeError ("indices must be integers or slices, not "
                                   ++ class_name arg)%string)
           | r => r
           end ;;
      let i := if i <? 0 then i + length else i in
      Ok [i]
  end.

(** [slicing(args, length)], consumed to the end. *)
Definition slicing (fuel : nat) (args : pyobj) (length : Z) : outcome (list Z) :=
  match args with
  | PTuple items =>
      chunks <- mapM (fun arg => slicing_singlevalue fuel arg length) items ;;
      Ok (List.concat chunks)
  | _ => slicing_singlevalue fuel args length
  end.

(** The [for c, z in zip(controls, targets)] loop of [qubit_pairs]. *)
Fixpoint check_distinct (pairs : list (Z * Z)) : outcome unit :=
  match pairs with
  | [] => Ok tt
  | (c, z) :: pairs' =>
      if c =? z then
        Raise (ValueError "Control qubit and target qubit are must be different.")
      else check_distinct pairs'
  end.

(** [qubit_pairs(args, length)]; [zip] is [combine]. *)
Definition qubit_pairs (fuel : nat) (args : pyobj) (length : Z)
  : outcome (list (Z * Z)) :=
  match args with
  | PTuple items =>
      if negb (Nat.eqb (List.length items) 2) then
        Raise (ValueError "Control and target qubits pair(s) are required.")
      else
        controls <- slicing fuel (nth 0 items (PTuple [])) length ;;
        targets <- slicing fuel (nth 1 items (PTuple [])) length ;;
        if negb (Nat.eqb (List.length controls) (List.length targets)) then
          Raise (ValueError
                   "The number of control qubits and target qubits are must be same.")
        else
          _ <- check_distinct (combine controls targets) ;;
          Ok (combine controls targets)
  | _ => Raise (ValueError "Control and target qubits pair(s) are required.")
  end.

(** The inner function of [get_maximum_index]. *)
Definition _maximum_idx_single (idx : pyobj) : outcome Z :=
  match idx with
  | PSlice idx_start idx_stop _ =>
      let start := match idx_start with None => -1 | Some v => v end in
      let stop := match idx_stop with None => 0 | Some v => v end in
      Ok (Z.max start (stop - 1))
  | _ => py_index idx
  end.

(** [get_maximum_index(indices)] *)
Definition get_maximum_index (indices : pyobj) : outcome Z :=
  match indices with
  | PTuple items => ms <- mapM _maximum_idx_single items ;; py_max ms
  | _ => _maximum_idx_single indices
  end.

(** ** The gate taxonomy *)

Inductive gate_class : Type :=
| Gate | OneQubitGate | TwoQubitGate
| IGate | XGate | YGate | ZGate | HGate
| CZGate | CXGate
| RXGate | RYGate | RZGate
| TGate | SGate | Measurement.

(** [cls.__name__] *)
Definition cls_name (c : gate_class) : string :=
  match c with
  | Gate => "Gate" | OneQubitGate => "OneQubitGate"
  | TwoQubitGate => "TwoQubitGate"
  | IGate => "IGate" | XGate => "XGate" | YGate => "YGate"
  | ZGate => "ZGate" | HGate => "HGate"
  | CZGate => "CZGate" | CXGate => "CXGate"
  | RXGate => "RXGate" | RYGate => "RYGate" | RZGate => "RZGate"
  | TGate => "TGate" | SGate => "SGate" | Measurement => "Measurement"
  end.

(** The class named in the [class C(B)] header; [Gate] derives from [ABC]
    only. *)
Definition base (c : gate_class) : option gate_class :=
  match c with
  | Gate => None
  | OneQubitGate | TwoQubitGate => Some Gate
  | CZGate | CXGate => Some TwoQubitGate
  | _ => Some OneQubitGate
  end.

(** Method resolution order, the class itself first. *)
Definition mro (c : gate_class) : list gate_class :=
  match base c with
  | None => [c]
  | Some b =>
      match base b with
      | None => [c; b]
      | Some b' => [c; b; b']
      end
  end.

(** The [lowername] attribute written in a class body, if the body has
    one; the inner [None] is Python's [None]. *)
Definition own_lowername (c : gate_class) : option (option string) :=
  match c with
  | Gate => Some None
  | OneQubitGate | TwoQubitGate => None
  | IGate => Some (Some "i") | XGate => Some (Some "x")
  | YGate => Some (Some "y") | ZGate => Some (Some "z")
  | HGate => Some (Some "h")
  | CZGate => Some (Some "cz") | CXGate => Some (Some "cx")
  | RXGate => Some (Some "rx") | RYGate => Some (Some "ry")
  | RZGate => Some (Some "rz")
  | TGate => Some (Some "t") | SGate => Some (Some "s")
  | Measurement => Some (Some "measure")
  end%string.

(** Attribute lookup along the resolution order. *)
Fixpoint lookup {A : Type} (own : gate_class -> option A) (order : list gate_class)
  : option A :=
  match order with
  | [] => None
  | c :: order' =>
      match own c with
      | Some a => Some a
      | None => lookup own order'
      end
  end.

(** [self.lowername] *)
Definition lowername (c : gate_class) : option string :=
  match lookup own_lowername (mro c) with
  | Some v => v
  | None => None
  end.

(** A gate instance: its class and the attributes [__init__] sets. *)
Record gate : Type := mkGate {
  gate_cls : gate_class;
  kwargs : list (string * pyobj);
  targets : pyobj;
  theta : option pyobj
}.

(** [self.theta = v] *)
Definition set_theta (self : gate) (v : pyobj) : gate :=
  mkGate (gate_cls self) (kwargs self) (targets self) (Some v).

(** *** Binding the arguments of a call

    What the interpreter does before the body of an [__init__] with the
    parameters [self, p1, ..., pk] and a keyword catch-all runs.  The
    exceptions are [TypeError]s; their texts are those of the CPython of
    the module's time and vary between versions. *)

(** [d.get(k)] on the keywords of a call, kept in the order given. *)
Fixpoint assoc (k : string) (kw : list (string * pyobj)) : option pyobj :=
  match kw with
  | [] => None
  | (k', v) :: kw' => if String.eqb k k' then Some v else assoc k kw'
  end.

Definition has_key (k : string) (kw : list (string * pyobj)) : bool :=
  match assoc k kw with Some _ => true | None => false end.

(** The first keyword given a second time, when keyword mappings are
    merged for the call. *)
Fixpoint first_repeat (seen : list string) (kw : list (string * pyobj))
  : option string :=
  match kw with
  | [] => None
  | (k, _) :: kw' =>
      if existsb (String.eqb k) seen then Some k
      else first_repeat (k :: seen) kw'
  end.

Definition decimal (n : nat) : string :=
  DecimalString.NilEmpty.string_of_uint (Nat.to_uint n).

(** Keywords in turn: one naming a parameter fills it, unless the
    parameter has its value already ([self] always has); the others are
    collected in order for the catch-all. *)
Fixpoint bind_keywords (params : list string) (bound kw : list (string * pyobj))
  : outcome (list (string * pyobj) * list (string * pyobj)) :=
  match kw with
  | [] => Ok (bound, [])
  | (k, v) :: kw' =>
      if String.eqb k "self" || has_key k bound then
        Raise (TypeError
                 ("__init__() got multiple values for argument '" ++ k ++ "'")%string)
      else if existsb (String.eqb k) params then
        bind_keywords params (bound ++ [(k, v)]) kw'
      else
        '(bound', rest) <- bind_keywords params bound kw' ;;
        Ok (bound', (k, v) :: rest)
  end.

Definition missing_message (missing : list string) : string :=
  match missing with
  | [p] => "__init__() missing 1 required positional argument: '" ++ p ++ "'"
  | _ =>
      "__init__() missing " ++ decimal (List.length missing)
        ++ " required positional arguments: "
        ++ String.concat " and " (map (fun p => "'" ++ p ++ "'") missing)
  end%string.

(** The whole binding: positional arguments first, then the keywords, then
    the checks for too many and for missing arguments.  Returns the values
    of the parameters and the keywords left for the catch-all. *)
Definition bind_call (params : list string) (args : list pyobj)
  (kw : list (string * pyobj))
  : outcome (list (string * pyobj) * list (string * pyobj)) :=
  match first_repeat [] kw with
  | Some k =>
      Raise (TypeError
               ("type object got multiple values for keyword argument '"
                  ++ k ++ "'")%string)
  | None =>
      '(bound, rest) <- bind_keywords params (combine params args) kw ;;
      if (List.length params <? List.length args)%nat then
        Raise (TypeError
                 ("__init__() takes " ++ decimal (S (List.length params))
                    ++ " positional arguments but "
                    ++ decimal (S (List.length args)) ++ " were given")%string)
      else
        match filter (fun p => negb (has_key p bound)) params with
        | [] => Ok (bound, rest)
        | missing => Raise (TypeError (missing_message missing))
        end
  end.

(** Reading a parameter in the body. *)
Definition param (name : string) (bound : list (string * pyobj)) : outcome pyobj :=
  match assoc name bound with
  | Some v => Ok v
  | None => Raise (TypeError (missing_message [name]))
  end.

(** The body of [Gate.__init__], its parameters bound. *)
Definition Gate_init (c : gate_class) (targets : pyobj)
  (kwargs : list (string * pyobj)) : outcome gate :=
  match lowername c with
  | None => Raise (ValueError (cls_name c ++ ".lowername is not defined.")%string)
  | Some _ => Ok (mkGate c kwargs targets None)
  end.

(** Calling [Gate.__init__] on a new object of class [c]. *)
Definition Gate_call (c : gate_class) (args : list pyobj)
  (kw : list (string * pyobj)) : outcome gate :=
  '(bound, kwargs) <- bind_call ["targets"%string] args kw ;;
  targets <- param "targets" bound ;;
  Gate_init c targets kwargs.

(** The body of the [__init__] of the rotation gates: the call of
    [Gate.__init__] through [super()], then the angle. *)
Definition Rotation_init (c : gate_class) (targets theta : pyobj)
  (kwargs : list (string * pyobj)) : outcome gate :=
  self <- Gate_call c [targets] kwargs ;;
  Ok (set_theta self theta).

(** Calling the [__init__] of a rotation gate on a new object. *)
Definition Rotation_call (c : gate_class) (args : list pyobj)
  (kw : list (string * pyobj)) : outcome gate :=
  '(bound, kwargs) <- bind_call ["targets"%string; "theta"%string] args kw ;;
  targets <- param "targets" bound ;;
  theta <- param "theta" bound ;;
  Rotation_init c targets theta kwargs.

Inductive init_method : Type := InitGate | InitRotation.

Definition own_init (c : gate_class) : option init_method :=
  match c with
  | Gate => Some InitGate
  | RXGate | RYGate | RZGate => Some InitRotation
  | _ => None
  end.

(** The names of the parameters of an [__init__], [self] apart. *)
Definition init_params (m : init_method) : list string :=
  match m with
  | InitGate => ["targets"]
  | InitRotation => ["targets"; "theta"]
  end%string.

(** Calling the class with positional arguments [args] and keyword
    arguments [kw]: the [__init__] found along the resolution order is
    called on the new object. *)
Definition construct (c : gate_class) (args : list pyobj)
  (kw : list (string * pyobj)) : outcome gate :=
  match lookup own_init (mro c) with
  | Some InitRotation => Rotation_call c args kw
  | _ => Gate_call c args kw
  end.

Inductive fallback_method : Type := FallbackGate | FallbackIGate.

Definition own_fallback (c : gate_class) : option fallback_method :=
  match c with
  | Gate => Some FallbackGate
  | IGate => Some FallbackIGate
  | _ => None
  end.

(** [self.fallback()] *)
Definition fallback (self : gate) : outcome (list gate) :=
  match lookup own_fallback (mro (gate_cls self)) with
  | Some FallbackIGate => Ok []
  | _ => Raise (NotImplementedError
                  ("The fallback of " ++ cls_name (gate_cls self)
                     ++ " gate is not defined.")%string)
  end.

(** [find_n_qubits(gates)] *)
Definition find_n_qubits (gates : list gate) : outcome Z :=
  ms <- mapM (fun g => get_maximum_index (targets g)) gates ;;
  Ok (py_max_default ms (-1) + 1).

(** ** The specification's reading of a range *)

(** The list [first, first + step, ...] of [count] terms. *)
Definition progression (first step : Z) (count : nat) : list Z :=
  map (fun k => first + Z.of_nat k * step) (seq 0 count).

(** How many terms of the progression from [start] lie strictly before
    [stop] in the direction of [step]. *)
Definition range_len (start stop step : Z) : nat :=
  if step >? 0 then Z.to_nat ((stop - start + step - 1) / step)
  else Z.to_nat ((start - stop - step - 1) / (- step)).

Definition clamp (lo hi v : Z) : Z := Z.max lo (Z.min hi v).

(** "step defaults to 1 if unspecified" *)
Definition spec_step (step : option Z) : Z :=
  match step with None => 1 | Some s => s end.

(** "negative values are offset by n, clamped into [0, n] (or [-1, n-1]
    for descending)" *)
Definition spec_bound (v n step : Z) : Z :=
  let v' := if v <? 0 then v + n else v in
  if step >? 0 then clamp 0 n v' else clamp (-1) (n - 1) v'.

(** "omitted start => 0 if step>0 else n-1" *)
Definition spec_start (start : option Z) (n step : Z) : Z :=
  match start with
  | None => if step >? 0 then 0 else n - 1
  | Some v => spec_bound v n step
  end.

(** "omitted stop => n if step>0 else -1" *)
Definition spec_stop (stop : option Z) (n step : Z) : Z :=
  match stop with
  | None => if step >? 0 then n else -1
  | Some v => spec_bound v n step
  end.

(** "if i < 0, replace with i + n" *)
Definition wrap_index (i n : Z) : Z := if i <? 0 then i + n else i.

(** The positional arguments a class expects: the targets, and the angle
    for the rotation gates. *)
Definition call_args (c : gate_class) (targets theta : pyobj) : list pyobj :=
  match lookup own_init (mro c) with
  | Some InitRotation => [targets; theta]
  | _ => [targets]
  end.

(** ** The iteration methods of the two shapes of gate *)

Definition own_target_iter (c : gate_class) : option unit :=
  match c with OneQubitGate => Some tt | _ => None end.

Definition own_control_target_iter (c : gate_class) : option unit :=
  match c with TwoQubitGate => Some tt | _ => None end.

(** Looking up a method no class of the resolution order defines. *)
Definition no_attribute (self : gate) (name : string) : exn :=
  AttributeError ("'" ++ cls_name (gate_cls self)
                    ++ "' object has no attribute '" ++ name ++ "'")%string.

(** [self.target_iter(n_qubits)], consumed to the end. *)
Definition target_iter (fuel : nat) (self : gate) (n_qubits : Z)
  : outcome (list Z) :=
  match lookup own_target_iter (mro (gate_cls self)) with
  | Some _ => slicing fuel (targets self) n_qubits
  | None => Raise (no_attribute self "target_iter")
  end.

(** [self.control_target_iter(n_qubits)], consumed to the end. *)
Definition control_target_iter (fuel : nat) (self : gate) (n_qubits : Z)
  : outcome (list (Z * Z)) :=
  match lookup own_control_target_iter (mro (gate_cls self)) with
  | Some _ => qubit_pairs fuel (targets self) n_qubits
  | None => Raise (no_attribute self "control_target_iter")
  end.

(** ** Specifiers that name their qubits outright *)

(** An element whose largest qubit can be read off without knowing the
    qubit count: a non-negative index, or a range with both bounds given
    and non-negative. *)
Definition closed_elem (o : pyobj) : bool :=
  match o with
  | PInt i => 0 <=? i
  | PSlice (Some a) (Some b) _ => (0 <=? a) && (0 <=? b)
  | _ => false
  end.

Definition closed_spec (o : pyobj) : bool :=
  match o with
  | PTuple items => forallb closed_elem items
  | _ => closed_elem o
  end.

(** The integers [a, a + 1, ...], [count] of them. *)
Definition upfrom (a : Z) (count : nat) : list Z :=
  map (fun k => a + Z.of_nat k) (seq 0 count).

Definition is_attribute_error {A : Type} (m : outcome A) : bool :=
  match m with Raise (AttributeError _) => true | _ => false end.

Definition swap_pair (p : Z * Z) : Z * Z := (snd p, fst p).

(** The names of the parameters of the [__init__] a class resolves to. *)
Definition class_params (c : gate_class) : list string :=
  match lookup own_init (mro c) with
  | Some m => init_params m
  | None => []
  end.

(** Keywords that are all different and name neither [self] nor one of the
    parameters [params]: they all go to the catch-all. *)
Definition free_keywords (params : list string) (kw : list (string * pyobj))
  : bool :=
  match first_repeat [] kw with None => true | Some _ => false end
  && forallb (fun kv => negb (String.eqb (fst kv) "self")
                        && negb (existsb (String.eqb (fst kv)) params)) kw.

(** The keywords of a call that do not name one of [params]. *)
Definition other_keywords (params : list string) (kw : list (string * pyobj))
  : list (string * pyobj) :=
  filter (fun kv => negb (existsb (String.eqb (fst kv)) params)) kw.

(** ** Facts about the loops *)

Section Loops.

Lemma progression_S first step count :
  progression first step (S count)
  = first :: progression (first + step) step count.
Proof.
  unfold progression. rewrite <- cons_seq, <- seq_shift.
  cbn [map]. rewrite map_map. f_equal; [lia |].
  apply map_ext. intros k. lia.
Qed.

Lemma in_progression first step count x :
  In x (progression first step count)
  <-> exists k, 0 <= k < Z.of_nat count /\ x = first + k * step.
Proof.
  unfold progression. rewrite in_map_iff. split.
  - intros (k & <- & Hk). apply in_seq in Hk. exists (Z.of_nat k).
    split; [lia | reflexivity].
  - intros (k & Hk & ->). exists (Z.to_nat k).
    split; [rewrite Z2Nat.id by lia; reflexivity |].
    apply in_seq. lia.
Qed.

(** The count of an ascending range, without the division. *)
Lemma up_count_spec d step k :
  0 < step -> 0 <= k ->
  (k < (d + step - 1) / step <-> k * step < d).
Proof.
  intros Hs Hk. split; intros H.
  - destruct (Z_lt_ge_dec (k * step) d) as [|Hge]; [assumption | exfalso].
    assert ((d + step - 1) / step < k + 1)
      by (apply Z.div_lt_upper_bound; nia).
    lia.
  - assert (k + 1 <= (d + step - 1) / step)
      by (apply Z.div_le_lower_bound; nia).
    lia.
Qed.

Lemma range_len_up start stop step k :
  0 < step -> 0 <= k ->
  (k < Z.of_nat (range_len start stop step) <-> start + k * step < stop).
Proof.
  intros Hs Hk. unfold range_len.
  destruct (Z.gtb_spec step 0); [| lia].
  pose proof (up_count_spec (stop - start) step k Hs Hk) as E.
  replace (stop - start + step - 1) with ((stop - start) + step - 1) by lia.
  lia.
Qed.

Lemma range_len_down start stop step k :
  step < 0 -> 0 <= k ->
  (k < Z.of_nat (range_len start stop step) <-> start + k * step > stop).
Proof.
  intros Hs Hk. unfold range_len.
  destruct (Z.gtb_spec step 0); [lia |].
  assert (Hs' : 0 < - step) by lia.
  pose proof (up_count_spec (start - stop) (- step) k Hs' Hk) as E.
  replace (start - stop - step - 1) with (start - stop + - step - 1) by lia.
  lia.
Qed.

Lemma range_len_up_0 start stop step :
  0 < step -> stop <= start -> range_len start stop step = O.
Proof.
  intros Hs Hle.
  pose proof (range_len_up start stop step 0 Hs (Z.le_refl 0)). lia.
Qed.

Lemma range_len_up_S start stop step :
  0 < step -> start < stop ->
  range_len start stop step = S (range_len (start + step) stop step).
Proof.
  intros Hs Hlt.
  apply Nat2Z.inj.
  destruct (Z.lt_trichotomy (Z.of_nat (range_len start stop step))
              (Z.of_nat (S (range_len (start + step) stop step))))
    as [H | [H | H]]; [exfalso | assumption | exfalso].
  - pose proof (range_len_up start stop step
                  (Z.of_nat (range_len start stop step)) Hs) as E1.
    destruct (Z.eq_dec (Z.of_nat (range_len start stop step)) 0) as [E0 | E0].
    + pose proof (range_len_up start stop step 0 Hs (Z.le_refl 0)). lia.
    + pose proof (range_len_up (start + step) stop step
                    (Z.of_nat (range_len start stop step) - 1) Hs) as E2.
      lia.
  - pose proof (range_len_up (start + step) stop step
                  (Z.of_nat (range_len (start + step) stop step)) Hs) as E1.
    pose proof (range_len_up start stop step
                  (Z.of_nat (range_len (start + step) stop step) + 1) Hs) as E2.
    lia.
Qed.

Lemma range_len_down_0 start stop step :
  step < 0 -> start <= stop -> range_len start stop step = O.
Proof.
  intros Hs Hle.
  pose proof (range_len_down start stop step 0 Hs (Z.le_refl 0)). lia.
Qed.

Lemma range_len_down_S start stop step :
  step < 0 -> stop < start ->
  range_len start stop step = S (range_len (start + step) stop step).
Proof.
  intros Hs Hlt.
  apply Nat2Z.inj.
  destruct (Z.lt_trichotomy (Z.of_nat (range_len start stop step))
              (Z.of_nat (S (range_len (start + step) stop step))))
    as [H | [H | H]]; [exfalso | assumption | exfalso].
  - pose proof (range_len_down start stop step
                  (Z.of_nat (range_len start stop step)) Hs) as E1.
    destruct (Z.eq_dec (Z.of_nat (range_len start stop step)) 0) as [E0 | E0].
    + pose proof (range_len_down start stop step 0 Hs (Z.le_refl 0)). lia.
    + pose proof (range_len_down (start + step) stop step
                    (Z.of_nat (range_len start stop step) - 1) Hs) as E2.
      lia.
  - pose proof (range_len_down (start + step) stop step
                  (Z.of_nat (range_len (start + step) stop step)) Hs) as E1.
    pose proof (range_len_down start stop step
                  (Z.of_nat (range_len (start + step) stop step) + 1) Hs) as E2.
    lia.
Qed.

(** With more fuel than terms, the ascending loop ends and yields the
    progression. *)
Lemma while_lt_progression step :
  0 < step ->
  forall fuel i stop,
    (range_len i stop step < fuel)%nat ->
    while_lt fuel i stop step = Ok (progression i step (range_len i stop step)).
Proof.
  intros Hs. induction fuel as [| fuel IH]; intros i stop Hf; [lia |].
  simpl. destruct (Z.ltb_spec i stop) as [Hlt | Hge].
  - rewrite (range_len_up_S i stop step Hs Hlt) in Hf |- *.
    rewrite IH by lia. simpl. rewrite progression_S. reflexivity.
  - rewrite range_len_up_0 by lia. reflexivity.
Qed.

Lemma while_gt_progression step :
  step < 0 ->
  forall fuel i stop,
    (range_len i stop step < fuel)%nat ->
    while_gt fuel i stop step = Ok (progression i step (range_len i stop step)).
Proof.
  intros Hs. induction fuel as [| fuel IH]; intros i stop Hf; [lia |].
  simpl. destruct (Z.gtb_spec i stop) as [Hgt | Hle].
  - rewrite (range_len_down_S i stop step Hs) in Hf |- * by lia.
    rewrite IH by lia. simpl. rewrite progression_S. reflexivity.
  - rewrite range_len_down_0 by lia. reflexivity.
Qed.

End Loops.

(** ** Facts about [slice.indices] *)

Section SliceIndices.

Variable n : Z.
Hypothesis n_nonneg : 0 <= n.

Lemma adjust_bound_asc v : adjust_bound v n 0 n = spec_bound v n 1.
Proof.
  unfold adjust_bound, spec_bound, clamp. simpl.
  destruct (Z.ltb_spec v 0).
  - destruct (Z.ltb_spec (v + n) 0); lia.
  - destruct (Z.gtb_spec v n); lia.
Qed.

Lemma adjust_bound_desc v : adjust_bound v n (-1) (n + -1) = spec_bound v n (-1).
Proof.
  unfold adjust_bound, spec_bound, clamp. simpl.
  destruct (Z.ltb_spec v 0).
  - destruct (Z.ltb_spec (v + n) (-1)); lia.
  - destruct (Z.gtb_spec v (n + -1)); lia.
Qed.

Lemma spec_bound_sign v step :
  spec_bound v n step = spec_bound v n (if step >? 0 then 1 else -1).
Proof. unfold spec_bound. destruct (step >? 0); reflexivity. Qed.

(** The code's bounds are the specification's. *)
Lemma slice_indices_spec start stop step :
  spec_step step <> 0 ->
  slice_indices start stop step n
  = Ok (spec_start start n (spec_step step),
        spec_stop stop n (spec_step step),
        spec_step step).
Proof.
  intros Hstep. unfold slice_indices. fold (spec_step step).
  destruct (Z.ltb_spec n 0); [lia |].
  destruct (Z.eqb_spec (spec_step step) 0); [contradiction |].
  unfold spec_start, spec_stop.
  destruct start as [a |], stop as [b |];
    rewrite ?(spec_bound_sign _ (spec_step step));
    destruct (Z.ltb_spec (spec_step step) 0);
    destruct (Z.gtb_spec (spec_step step) 0); try lia;
    rewrite <- ?adjust_bound_desc, <- ?adjust_bound_asc;
    repeat f_equal; lia.
Qed.

Lemma slice_indices_zero_step start stop step :
  spec_step step = 0 ->
  slice_indices start stop step n
  = Raise (ValueError "slice step cannot be zero").
Proof.
  intros Hstep. unfold slice_indices. fold (spec_step step).
  destruct (Z.ltb_spec n 0); [lia |].
  rewrite Hstep. reflexivity.
Qed.

Lemma spec_bounds_asc start stop step :
  0 < step ->
  0 <= spec_start start n step <= n /\ 0 <= spec_stop stop n step <= n.
Proof.
  intros Hs. unfold spec_start, spec_stop, spec_bound, clamp.
  destruct (Z.gtb_spec step 0); [| lia].
  destruct start, stop; lia.
Qed.

Lemma spec_bounds_desc start stop step :
  step < 0 ->
  -1 <= spec_start start n step <= n - 1
  /\ -1 <= spec_stop stop n step <= n - 1.
Proof.
  intros Hs. unfold spec_start, spec_stop, spec_bound, clamp.
  destruct (Z.gtb_spec step 0); [lia |].
  destruct start, stop; lia.
Qed.

(** A range never has more terms than there are qubits. *)
Lemma range_len_bound start stop step :
  step <> 0 ->
  (range_len (spec_start start n step) (spec_stop stop n step) step
   <= Z.to_nat n)%nat.
Proof.
  intros Hs.
  set (lo := spec_start start n step). set (hi := spec_stop stop n step).
  destruct (Z_lt_ge_dec (Z.of_nat (Z.to_nat n)) (Z.of_nat (range_len lo hi step)))
    as [Hlt |]; [exfalso | lia].
  destruct (Z_lt_ge_dec 0 step) as [Hpos | Hneg].
  - pose proof (spec_bounds_asc start stop step Hpos) as [Hlo Hhi].
    fold lo in Hlo. fold hi in Hhi.
    pose proof (proj1 (range_len_up lo hi step n Hpos n_nonneg)). nia.
  - assert (Hs' : step < 0) by lia.
    pose proof (spec_bounds_desc start stop step Hs') as [Hlo Hhi].
    fold lo in Hlo. fold hi in Hhi.
    pose proof (proj1 (range_len_down lo hi step n Hs' n_nonneg)). nia.
Qed.

(** Resolving a range with a non-zero step. *)
Lemma slicing_singlevalue_slice fuel start stop step :
  (Z.to_nat n < fuel)%nat ->
  spec_step step <> 0 ->
  slicing_singlevalue fuel (PSlice start stop step) n
  = Ok (progression (spec_start start n (spec_step step)) (spec_step step)
          (range_len (spec_start start n (spec_step step))
             (spec_stop stop n (spec_step step)) (spec_step step))).
Proof.
  intros Hfuel Hstep. unfold slicing_singlevalue.
  rewrite slice_indices_spec by assumption. simpl bind.
  pose proof (range_len_bound start stop (spec_step step) Hstep).
  destruct (Z.gtb_spec (spec_step step) 0).
  - apply while_lt_progression; lia.
  - apply while_gt_progression; lia.
Qed.

End SliceIndices.

(** ** Resolving one specifier *)

(** The first exception met while consuming a sequence is the one raised. *)
Lemma mapM_app_raise {A B : Type} (f : A -> outcome B) before a after bs e :
  mapM f before = Ok bs -> f a = Raise e ->
  mapM f (before ++ a :: after) = Raise e.
Proof.
  revert bs. induction before as [| b before IH]; intros bs Hb Ha.
  - simpl. rewrite Ha. reflexivity.
  - cbn [mapM app] in Hb |- *.
    destruct (f b) as [c | |]; cbn [bind] in Hb |- *; try discriminate.
    destruct (mapM f before) as [cs | |]; cbn [bind] in Hb; try discriminate.
    rewrite (IH cs eq_refl Ha). reflexivity.
Qed.

Lemma slicing_singlevalue_int fuel i n :
  slicing_singlevalue fuel (PInt i) n = Ok [wrap_index i n].
Proof. reflexivity. Qed.

Lemma slicing_int fuel i n :
  slicing fuel (PInt i) n = Ok [wrap_index i n].
Proof. reflexivity. Qed.

Lemma slicing_singlevalue_not_index fuel arg n :
  is_int arg = false -> is_slice arg = false ->
  slicing_singlevalue fuel arg n
  = Raise (TypeError ("indices must be integers or slices, not "
                        ++ class_name arg)%string).
Proof. destruct arg; simpl; intros; try discriminate; reflexivity. Qed.

(** C4: a range [(start, stop, step)] resolved against [n] qubits follows
    the slice rules of the language.  A step of zero is rejected with a
    [ValueError].  Otherwise the step is the given one or 1, the bounds are
    the defaults for the sign of the step or the given values offset by [n]
    when negative and clamped, and the result is the arithmetic progression
    from the start towards the stop, stop excluded: exactly the values
    [start + k * step] lying before the stop, all of them qubit indices.
    A range with nothing in it (stop at or before start for a positive
    step) gives the empty sequence and no error. *)
Theorem slice_resolves_to_progression :
  forall (fuel : nat) (start stop step : option Z) (n : Z),
    0 <= n -> (Z.to_nat n < fuel)%nat ->
    (spec_step step = 0 ->
     is_value_error (slicing_singlevalue fuel (PSlice start stop step) n) = true)
    /\ (spec_step step <> 0 ->
        let st := spec_step step in
        let lo := spec_start start n st in
        let hi := spec_stop stop n st in
        let l := progression lo st (range_len lo hi st) in
        slice_indices start stop step n = Ok (lo, hi, st)
        /\ slicing_singlevalue fuel (PSlice start stop step) n = Ok l
        /\ (forall x, In x l <->
                      exists k, 0 <= k /\ x = lo + k * st
                                /\ (if st >? 0 then x < hi else x > hi))
        /\ (forall x, In x l -> 0 <= x < n)
        /\ (0 < st -> hi <= lo ->
            slicing_singlevalue fuel (PSlice start stop step) n = Ok [])).
Proof.
  intros fuel start stop step n Hn Hfuel. split.
  - intros Hz. unfold slicing_singlevalue.
    rewrite slice_indices_zero_step by assumption. reflexivity.
  - intros Hstep st lo hi l.
    assert (Hin : forall x, In x l <->
                    exists k, 0 <= k /\ x = lo + k * st
                              /\ (if st >? 0 then x < hi else x > hi)).
    { intros x. unfold l. rewrite in_progression.
      destruct (Z.gtb_spec st 0) as [Hpos | Hneg].
      - split.
        + intros (k & Hk & ->). exists k.
          pose proof (range_len_up lo hi st k ltac:(lia) ltac:(lia)). lia.
        + intros (k & Hk & -> & Hlt). exists k.
          pose proof (range_len_up lo hi st k ltac:(lia) Hk).
          split; [lia | reflexivity].
      - assert (Hs : st < 0) by (unfold st in *; lia).
        split.
        + intros (k & Hk & ->). exists k.
          pose proof (range_len_down lo hi st k Hs ltac:(lia)). lia.
        + intros (k & Hk & -> & Hlt). exists k.
          pose proof (range_len_down lo hi st k Hs Hk).
          split; [lia | reflexivity]. }
    split; [apply slice_indices_spec; assumption |].
    split; [apply slicing_singlevalue_slice; assumption |].
    split; [exact Hin |].
    split.
    + intros x Hx. apply Hin in Hx. destruct Hx as (k & Hk & -> & Hb).
      destruct (Z.gtb_spec st 0) as [Hpos | Hneg].
      * pose proof (spec_bounds_asc n Hn start stop st ltac:(lia)) as [Hlo Hhi].
        fold lo in Hlo. fold hi in Hhi. nia.
      * assert (Hs : st < 0) by (unfold st in *; lia).
        pose proof (spec_bounds_desc n Hn start stop st Hs) as [Hlo Hhi].
        fold lo in Hlo. fold hi in Hhi. nia.
    + intros Hpos Hle.
      rewrite slicing_singlevalue_slice by assumption.
      fold st lo hi. rewrite range_len_up_0 by assumption. reflexivity.
Qed.

Lemma slice_resolves_to_progression_witness :
  slicing_singlevalue 7 (PSlice (Some (-5)) None (Some 2)) 6 = Ok [1; 3; 5]
  /\ slicing_singlevalue 7 (PSlice None (Some 1) (Some (-2))) 6 = Ok [5; 3]
  /\ slicing_singlevalue 7 (PSlice (Some 4) (Some 2) None) 6 = Ok []
  /\ is_value_error (slicing_singlevalue 7 (PSlice None None (Some 0)) 6) = true.
Proof.
  assert (Hn : 0 <= 6) by lia.
  assert (Hf : (Z.to_nat 6 < 7)%nat) by (vm_compute; lia).
  split; [| split; [| split]].
  - destruct (slice_resolves_to_progression 7 (Some (-5)) None (Some 2) 6 Hn Hf)
      as [_ H].
    destruct (H ltac:(discriminate)) as (_ & E & _). exact E.
  - destruct (slice_resolves_to_progression 7 None (Some 1) (Some (-2)) 6 Hn Hf)
      as [_ H].
    destruct (H ltac:(discriminate)) as (_ & E & _). exact E.
  - destruct (slice_resolves_to_progression 7 (Some 4) (Some 2) None 6 Hn Hf)
      as [_ H].
    destruct (H ltac:(discriminate)) as (_ & _ & _ & _ & E).
    apply E; vm_compute; [reflexivity | discriminate].
  - destruct (slice_resolves_to_progression 7 None None (Some 0) 6 Hn Hf)
      as [H _].
    apply H. reflexivity.
Defined.

(** The index 5 is resolved against 3 qubits without complaint: the
    generator yields 5 and no [IndexError] is raised, although 5 is not
    below 3. *)
Lemma single_index_beyond_count_is_yielded :
  wrap_index 5 3 >= 3
  /\ slicing_singlevalue 1 (PInt 5) 3 = Ok [5]
  /\ is_index_error (slicing_singlevalue 1 (PInt 5) 3) = false.
Proof. repeat split. vm_compute. discriminate. Qed.

(** C1, as the code has it: resolving a single integer index [i] against
    [n] qubits replaces a negative [i] by [i + n] and yields exactly that
    one value; no [IndexError] is raised, whatever the value; and for every
    [i] whose wrapped value lies in [0, n) the resolution succeeds and
    yields that index, which is then the only resolved qubit. *)
Theorem single_index_wraps_once :
  forall (fuel : nat) (i n : Z),
    slicing_singlevalue fuel (PInt i) n = Ok [wrap_index i n]
    /\ (i < 0 -> wrap_index i n = i + n)
    /\ is_index_error (slicing_singlevalue fuel (PInt i) n) = false
    /\ (0 <= wrap_index i n < n ->
        exists j, slicing fuel (PInt i) n = Ok [j] /\ j = wrap_index i n
                  /\ 0 <= j < n).
Proof.
  intros fuel i n. split; [apply slicing_singlevalue_int |].
  split.
  { intros Hneg. unfold wrap_index. destruct (Z.ltb_spec i 0); lia. }
  split; [reflexivity |].
  intros Hrange. exists (wrap_index i n).
  split; [apply slicing_int |]. split; [reflexivity | assumption].
Qed.

Lemma single_index_wraps_once_witness :
  wrap_index (-1) 4 = -1 + 4
  /\ exists j, slicing 0 (PInt (-1)) 4 = Ok [j] /\ j = wrap_index (-1) 4
               /\ 0 <= j < 4.
Proof.
  destruct (single_index_wraps_once 0 (-1) 4) as (_ & Hw & _ & H).
  split.
  - apply Hw. lia.
  - apply H. unfold wrap_index. simpl. lia.
Defined.

(** C9: resolving a single integer is total.  For every integer [i] and
    every count [n], both [slicing_singlevalue] and [slicing] yield the
    one-element sequence [i] when [i >= 0] and [i + n] when [i < 0]; no
    exception is raised and no fuel is needed, also when the value yielded
    is outside [0, n): nothing checks the bounds. *)
Theorem single_index_total_unchecked :
  forall (fuel : nat) (i n : Z),
    (0 <= i ->
     slicing_singlevalue fuel (PInt i) n = Ok [i]
     /\ slicing fuel (PInt i) n = Ok [i])
    /\ (i < 0 ->
        slicing_singlevalue fuel (PInt i) n = Ok [i + n]
        /\ slicing fuel (PInt i) n = Ok [i + n])
    /\ raises (slicing_singlevalue fuel (PInt i) n) = false
    /\ raises (slicing fuel (PInt i) n) = false
    /\ (0 <= i -> n <= i -> slicing fuel (PInt i) n = Ok [i])
    /\ (i < 0 -> i + n < 0 -> slicing fuel (PInt i) n = Ok [i + n]).
Proof.
  intros fuel i n.
  rewrite slicing_singlevalue_int, slicing_int. unfold wrap_index.
  destruct (Z.ltb_spec i 0); repeat split; intros; try reflexivity; try lia.
Qed.

Lemma single_index_total_unchecked_witness :
  slicing 0 (PInt 9) 2 = Ok [9]
  /\ slicing 0 (PInt (-7)) 2 = Ok [-7 + 2]
  /\ slicing_singlevalue 0 (PInt 1) 2 = Ok [1]
  /\ slicing_singlevalue 0 (PInt (-1)) 2 = Ok [-1 + 2].
Proof.
  destruct (single_index_total_unchecked 0 9 2) as (_ & _ & _ & _ & Hbig & _).
  destruct (single_index_total_unchecked 0 (-7) 2)
    as (_ & _ & _ & _ & _ & Hsmall).
  destruct (single_index_total_unchecked 0 1 2) as (Hpos & _).
  destruct (single_index_total_unchecked 0 (-1) 2) as (_ & Hneg & _).
  split; [apply Hbig; lia |].
  split; [apply Hsmall; lia |].
  split; [apply Hpos; lia | apply Hneg; lia].
Defined.

(** C8: resolving an element that is neither an integer (an object with
    [__index__]) nor a range raises a [TypeError] naming the class of the
    element, for every qubit count; given as the whole specifier or as an
    element of a tuple whose earlier elements resolve, the [TypeError] is
    what the caller gets. *)
Theorem non_index_element_is_type_error :
  forall (fuel : nat) (arg : pyobj) (n : Z),
    is_int arg = false -> is_slice arg = false ->
    slicing_singlevalue fuel arg n
    = Raise (TypeError ("indices must be integers or slices, not "
                          ++ class_name arg)%string)
    /\ is_type_error (slicing_singlevalue fuel arg n) = true
    /\ (is_tuple arg = false -> is_type_error (slicing fuel arg n) = true)
    /\ (forall before after chunks,
           mapM (fun a => slicing_singlevalue fuel a n) before = Ok chunks ->
           is_type_error (slicing fuel (PTuple (before ++ arg :: after)) n)
           = true).
Proof.
  intros fuel arg n Hint Hslice.
  pose proof (slicing_singlevalue_not_index fuel arg n Hint Hslice) as E.
  split; [exact E |].
  split; [rewrite E; reflexivity |].
  split.
  - intros Htuple. destruct arg; try discriminate. reflexivity.
  - intros before after chunks Hb. simpl.
    rewrite (mapM_app_raise _ _ _ _ _ _ Hb E). reflexivity.
Qed.

Lemma non_index_element_is_type_error_witness :
  slicing_singlevalue 1 (PObj "float") 3
  = Raise (TypeError "indices must be integers or slices, not float")
  /\ is_type_error (slicing 1 (PObj "float") 3) = true
  /\ is_type_error
       (slicing 1 (PTuple ([PInt 0] ++ PTuple [PInt 1] :: [PInt 2])) 3) = true.
Proof.
  destruct (non_index_element_is_type_error 1 (PObj "float") 3 eq_refl eq_refl)
    as (E & _ & Hs & _).
  destruct (non_index_element_is_type_error 1 (PTuple [PInt 1]) 3
              eq_refl eq_refl) as (_ & _ & _ & Ht).
  split; [exact E |].
  split; [apply Hs; reflexivity |].
  apply (Ht [PInt 0] [PInt 2] [[0]]). reflexivity.
Defined.

(** ** Pairing controls with targets *)

Lemma check_distinct_ok pairs :
  (forall c z, In (c, z) pairs -> c <> z) -> check_distinct pairs = Ok tt.
Proof.
  induction pairs as [| [c z] pairs IH]; intros H; [reflexivity |].
  simpl. destruct (Z.eqb_spec c z) as [E | _].
  - exfalso. apply (H c z); [left; reflexivity | exact E].
  - apply IH. intros c' z' Hin. apply H. right. exact Hin.
Qed.

Lemma check_distinct_raise pairs q :
  In (q, q) pairs -> is_value_error (check_distinct pairs) = true.
Proof.
  induction pairs as [| [c z] pairs IH]; intros H; [destruct H |].
  simpl. destruct (Z.eqb_spec c z); [reflexivity |].
  destruct H as [E | H]; [inversion E; congruence | auto].
Qed.

Lemma nth_error_combine (cs ts : list Z) :
  List.length cs = List.length ts ->
  forall k, (k < List.length cs)%nat ->
            nth_error (combine cs ts) k = Some (nth k cs 0, nth k ts 0).
Proof.
  revert ts. induction cs as [| c cs IH]; intros [| t ts] Hlen k Hk;
    simpl in *; try lia.
  destruct k as [| k]; [reflexivity |].
  simpl. apply IH; lia.
Qed.

(** C3: [qubit_pairs] raises a [ValueError] when the specifier is not a
    tuple, when it is a tuple of a length other than two, when the two
    sides resolve to sequences of different lengths, and when some resolved
    pair has its control equal to its target; otherwise it returns the
    pairs matched by position, the k-th control with the k-th target, in
    order. *)
Theorem qubit_pairs_checks_then_zips :
  forall (fuel : nat) (args : pyobj) (n : Z),
    (is_tuple args = false -> is_value_error (qubit_pairs fuel args n) = true)
    /\ (forall items, args = PTuple items -> List.length items <> 2%nat ->
                      is_value_error (qubit_pairs fuel args n) = true)
    /\ (forall c t cs ts,
           args = PTuple [c; t] ->
           slicing fuel c n = Ok cs -> slicing fuel t n = Ok ts ->
           (List.length cs <> List.length ts ->
            is_value_error (qubit_pairs fuel args n) = true)
           /\ ((exists q, In (q, q) (combine cs ts)) ->
               is_value_error (qubit_pairs fuel args n) = true)
           /\ (List.length cs = List.length ts ->
               (forall p q, In (p, q) (combine cs ts) -> p <> q) ->
               qubit_pairs fuel args n = Ok (combine cs ts)
               /\ List.length (combine cs ts) = List.length cs
               /\ forall k, (k < List.length cs)%nat ->
                            nth_error (combine cs ts) k
                            = Some (nth k cs 0, nth k ts 0))).
Proof.
  intros fuel args n. split; [| split].
  - intros Ht. destruct args; try discriminate; reflexivity.
  - intros items -> Hlen. unfold qubit_pairs.
    destruct (Nat.eqb_spec (List.length items) 2); [contradiction | reflexivity].
  - intros c t cs ts -> Hc Ht. unfold qubit_pairs.
    cbn [List.length Nat.eqb negb nth]. rewrite Hc, Ht. cbn [bind].
    split; [| split].
    + intros Hlen.
      destruct (Nat.eqb_spec (List.length cs) (List.length ts));
        [contradiction | reflexivity].
    + intros [q Hq].
      destruct (Nat.eqb_spec (List.length cs) (List.length ts));
        [| reflexivity].
      cbn [negb]. pose proof (check_distinct_raise _ _ Hq) as E.
      destruct (check_distinct (combine cs ts)) as [u | err |];
        try discriminate. exact E.
    + intros Hlen Hneq.
      destruct (Nat.eqb_spec (List.length cs) (List.length ts));
        [| contradiction].
      cbn [negb]. rewrite (check_distinct_ok _ Hneq). cbn [bind].
      split; [reflexivity |].
      split; [rewrite length_combine; lia |].
      apply nth_error_combine. exact Hlen.
Qed.

Lemma qubit_pairs_checks_then_zips_witness :
  is_value_error (qubit_pairs 5 (PInt 0) 4) = true
  /\ is_value_error (qubit_pairs 5 (PTuple [PInt 0; PInt 1; PInt 2]) 4) = true
  /\ is_value_error
       (qubit_pairs 5 (PTuple [PInt 0; PTuple [PInt 1; PInt 2]]) 4) = true
  /\ is_value_error
       (qubit_pairs 5 (PTuple [PTuple [PInt 0; PInt 2]; PTuple [PInt 1; PInt 2]]) 4)
     = true
  /\ qubit_pairs 5 (PTuple [PTuple [PInt 0; PInt 1]; PSlice (Some 2) None None]) 4
     = Ok [(0, 2); (1, 3)].
Proof.
  split; [| split; [| split; [| split]]].
  - apply (qubit_pairs_checks_then_zips 5 (PInt 0) 4). reflexivity.
  - destruct (qubit_pairs_checks_then_zips 5 (PTuple [PInt 0; PInt 1; PInt 2]) 4)
      as (_ & H & _).
    apply (H _ eq_refl). simpl. discriminate.
  - destruct (qubit_pairs_checks_then_zips 5
                (PTuple [PInt 0; PTuple [PInt 1; PInt 2]]) 4) as (_ & _ & H).
    destruct (H _ _ [0] [1; 2] eq_refl eq_refl eq_refl) as (Hlen & _).
    apply Hlen. simpl. discriminate.
  - destruct (qubit_pairs_checks_then_zips 5
                (PTuple [PTuple [PInt 0; PInt 2]; PTuple [PInt 1; PInt 2]]) 4)
      as (_ & _ & H).
    destruct (H _ _ [0; 2] [1; 2] eq_refl eq_refl eq_refl) as (_ & Heq & _).
    apply Heq. exists 2. simpl. right. left. reflexivity.
  - destruct (qubit_pairs_checks_then_zips 5
                (PTuple [PTuple [PInt 0; PInt 1]; PSlice (Some 2) None None]) 4)
      as (_ & _ & H).
    destruct (H _ _ [0; 1] [2; 3] eq_refl eq_refl eq_refl) as (_ & _ & Hok).
    apply Hok; [reflexivity |].
    intros p q Hin. simpl in Hin.
    destruct Hin as [E | [E | []]]; inversion E; lia.
Defined.

(** ** The largest index a circuit names *)

Lemma fold_max_spec (xs : list Z) (x : Z) :
  In (fold_left Z.max xs x) (x :: xs)
  /\ forall y, In y (x :: xs) -> y <= fold_left Z.max xs x.
Proof.
  revert x. induction xs as [| a xs IH]; intros x.
  - simpl. split; [left; reflexivity |]. intros y [<- | []]. lia.
  - cbn [fold_left]. destruct (IH (Z.max x a)) as [Hin Hle]. split.
    + destruct Hin as [E | Hin].
      * rewrite <- E. destruct (Z.max_spec x a) as [[_ ->] | [_ ->]];
          [right; left | left]; reflexivity.
      * right. right. exact Hin.
    + intros y [<- | [<- | Hy]].
      * etransitivity; [| apply Hle; left; reflexivity]. lia.
      * etransitivity; [| apply Hle; left; reflexivity]. lia.
      * apply Hle. right. exact Hy.
Qed.

Lemma py_max_spec (xs : list Z) :
  xs <> [] ->
  exists m, py_max xs = Ok m /\ py_max_default xs (-1) = m
            /\ In m xs /\ forall y, In y xs -> y <= m.
Proof.
  destruct xs as [| x xs]; [congruence |]. intros _.
  exists (fold_left Z.max xs x).
  split; [reflexivity |]. split; [reflexivity |]. apply fold_max_spec.
Qed.

Lemma mapM_length {A B : Type} (f : A -> outcome B) l bs :
  mapM f l = Ok bs -> List.length bs = List.length l.
Proof.
  revert bs. induction l as [| a l IH]; intros bs H; simpl in H.
  - inversion H. reflexivity.
  - destruct (f a); simpl in H; try discriminate.
    destruct (mapM f l); simpl in H; try discriminate.
    inversion H. simpl. f_equal. apply IH. reflexivity.
Qed.

Lemma mapM_pointwise {A B : Type} (f : A -> outcome B) (g : A -> B) l :
  (forall a, In a l -> f a = Ok (g a)) -> mapM f l = Ok (map g l).
Proof.
  induction l as [| a l IH]; intros H; [reflexivity |].
  simpl. rewrite (H a) by (left; reflexivity). simpl.
  rewrite IH by (intros; apply H; right; assumption). reflexivity.
Qed.

(** The index [-3] contributes [-3] to the maximum, not [-1]. *)
Lemma negative_index_contributes_itself :
  get_maximum_index (PInt (-3)) = Ok (-3)
  /\ get_maximum_index (PInt (-3)) <> Ok (-1).
Proof. split; [reflexivity | discriminate]. Qed.

(** C2, as the code has it: the maximum index of a single index is its raw
    literal, a negative one included; that of a range is
    [max(start, stop - 1)] with an omitted start counted as [-1] and an
    omitted stop as [0], so that an open-ended range contributes [-1]; that
    of a non-empty tuple of indices and ranges is the maximum over its
    elements; and [find_n_qubits] is 1 plus the maximum over the gates'
    specifiers, and 0 for the empty list or when every specifier is
    open-ended. *)
Theorem maximum_index_is_raw_literal :
  (forall i, get_maximum_index (PInt i) = Ok i)
  /\ (forall start stop step,
         get_maximum_index (PSlice start stop step)
         = Ok (Z.max (match start with None => -1 | Some v => v end)
                 (match stop with None => 0 | Some v => v end - 1)))
  /\ (forall start stop step,
         get_maximum_index (PSlice (Some start) (Some stop) step)
         = Ok (Z.max start (stop - 1)))
  /\ (forall step, get_maximum_index (PSlice None None step) = Ok (-1))
  /\ (forall items ms,
         items <> [] -> mapM _maximum_idx_single items = Ok ms ->
         exists m, get_maximum_index (PTuple items) = Ok m
                   /\ In m ms /\ forall y, In y ms -> y <= m)
  /\ find_n_qubits [] = Ok 0
  /\ (forall gates ms,
         gates <> [] ->
         mapM (fun g => get_maximum_index (targets g)) gates = Ok ms ->
         exists m, find_n_qubits gates = Ok (1 + m)
                   /\ In m ms /\ forall y, In y ms -> y <= m)
  /\ (forall gates,
         (forall g, In g gates -> exists step, targets g = PSlice None None step) ->
         find_n_qubits gates = Ok 0).
Proof.
  repeat match goal with |- _ /\ _ => split end; try reflexivity.
  - intros items ms Hne Hms. unfold get_maximum_index. rewrite Hms. cbn [bind].
    assert (Hms' : ms <> []).
    { apply mapM_length in Hms. destruct ms, items; simpl in Hms; congruence. }
    destruct (py_max_spec ms Hms') as (m & E & _ & Hin & Hle).
    exists m. auto.
  - intros gates ms Hne Hms. unfold find_n_qubits. rewrite Hms. cbn [bind].
    assert (Hms' : ms <> []).
    { apply mapM_length in Hms. destruct ms, gates; simpl in Hms; congruence. }
    destruct (py_max_spec ms Hms') as (m & _ & E & Hin & Hle).
    exists m. rewrite E. split; [f_equal; lia | auto].
  - intros gates Hopen. unfold find_n_qubits.
    rewrite (mapM_pointwise _ (fun _ => -1)).
    + cbn [bind]. f_equal. destruct gates as [| g gates]; [reflexivity |].
      cbn [map py_max_default].
      assert (E : fold_left Z.max (map (fun _ : gate => -1) gates) (-1) = -1).
      { clear. induction gates as [| g gates IH]; [reflexivity |].
        simpl. exact IH. }
      rewrite E. reflexivity.
    + intros g Hg. destruct (Hopen g Hg) as [step ->]. reflexivity.
Qed.

Lemma maximum_index_is_raw_literal_witness :
  (exists m, get_maximum_index (PTuple [PInt 4; PSlice (Some 2) (Some 7) None]) = Ok m
             /\ In m [4; 6] /\ forall y, In y [4; 6] -> y <= m)
  /\ (exists m, find_n_qubits [mkGate HGate [] (PInt 1) None;
                               mkGate CXGate [] (PTuple [PInt 0; PInt 2]) None]
                = Ok (1 + m)
                /\ In m [1; 2] /\ forall y, In y [1; 2] -> y <= m)
  /\ find_n_qubits [mkGate HGate [] (PSlice None None None) None] = Ok 0.
Proof.
  destruct maximum_index_is_raw_literal as (_ & _ & _ & _ & Ht & _ & Hf & Ho).
  split; [| split].
  - apply Ht; [discriminate | reflexivity].
  - apply Hf; [discriminate | reflexivity].
  - apply Ho. intros g [<- | []]. exists None. reflexivity.
Defined.

(** C10: [find_n_qubits] can be negative.  For a non-empty gate list in
    which every gate's specifier is a single negative integer, the maximum
    used is the largest of those raw literals (not [-1]) and the result is
    that literal plus one, which is at most 0; a list whose only gate
    targets index [-3] gives [-2]. *)
Theorem find_n_qubits_negative_literals :
  (forall gates,
      gates <> [] ->
      (forall g, In g gates -> exists i, targets g = PInt i /\ i < 0) ->
      exists m, find_n_qubits gates = Ok (m + 1)
                /\ m < 0
                /\ (exists g, In g gates /\ targets g = PInt m)
                /\ (forall g i, In g gates -> targets g = PInt i -> i <= m))
  /\ (forall c kw th, find_n_qubits [mkGate c kw (PInt (-3)) th] = Ok (-2))
  /\ -2 < 0.
Proof.
  split; [| split; [reflexivity | lia]].
  intros gates Hne Hneg.
  set (lit := fun g => match targets g with PInt i => i | _ => 0 end).
  assert (Hms : mapM (fun g => get_maximum_index (targets g)) gates
                = Ok (map lit gates)).
  { apply mapM_pointwise. intros g Hg.
    destruct (Hneg g Hg) as (i & E & _). unfold lit. rewrite E. reflexivity. }
  assert (Hne' : map lit gates <> []) by (destruct gates; simpl; congruence).
  destruct (py_max_spec _ Hne') as (m & _ & E & Hin & Hle).
  exists m. unfold find_n_qubits. rewrite Hms. cbn [bind]. rewrite E.
  apply in_map_iff in Hin. destruct Hin as (g & Hlit & Hg).
  destruct (Hneg g Hg) as (i & Ei & Hi).
  assert (i = m) by (unfold lit in Hlit; rewrite Ei in Hlit; exact Hlit).
  subst i.
  split; [reflexivity |]. split; [exact Hi |].
  split; [exists g; auto |].
  intros g' i Hg' Ei'. apply Hle. apply in_map_iff. exists g'.
  split; [unfold lit; rewrite Ei'; reflexivity | exact Hg'].
Qed.

Lemma find_n_qubits_negative_literals_witness :
  exists m, find_n_qubits [mkGate XGate [] (PInt (-3)) None;
                           mkGate HGate [] (PInt (-5)) None] = Ok (m + 1)
            /\ m < 0
            /\ (exists g, In g [mkGate XGate [] (PInt (-3)) None;
                                mkGate HGate [] (PInt (-5)) None]
                          /\ targets g = PInt m)
            /\ (forall g i, In g [mkGate XGate [] (PInt (-3)) None;
                                  mkGate HGate [] (PInt (-5)) None] ->
                            targets g = PInt i -> i <= m).
Proof.
  apply (proj1 find_n_qubits_negative_literals); [discriminate |].
  intros g [<- | [<- | []]]; eexists; (split; [reflexivity | lia]).
Defined.

(** ** Construction and decomposition of gates *)

Lemma lowername_none_cases c :
  lowername c = None -> c = Gate \/ c = OneQubitGate \/ c = TwoQubitGate.
Proof. destruct c; simpl; intros H; try discriminate; auto. Qed.

(** C5: asking for the decomposition of a gate whose class has no
    [fallback] of its own raises [NotImplementedError]; every class of the
    module other than [IGate] resolves [fallback] to the one of [Gate], and
    this is what every concrete gate other than the identity does. *)
Theorem fallback_not_implemented :
  forall self : gate,
    gate_cls self <> IGate ->
    lookup own_fallback (mro (gate_cls self)) = Some FallbackGate
    /\ fallback self
       = Raise (NotImplementedError
                  ("The fallback of " ++ cls_name (gate_cls self)
                     ++ " gate is not defined.")%string)
    /\ is_not_implemented (fallback self) = true.
Proof.
  intros [c kw t th] Hc. simpl in Hc.
  destruct c; try contradiction; repeat split.
Qed.

Lemma fallback_not_implemented_witness :
  fallback (mkGate CXGate [] (PTuple [PInt 0; PInt 1]) None)
  = Raise (NotImplementedError "The fallback of CXGate gate is not defined.")
  /\ is_not_implemented
       (fallback (mkGate RZGate [] (PInt 0) (Some (PObj "float")))) = true.
Proof.
  split.
  - apply (fallback_not_implemented
             (mkGate CXGate [] (PTuple [PInt 0; PInt 1]) None)).
    discriminate.
  - apply (fallback_not_implemented
             (mkGate RZGate [] (PInt 0) (Some (PObj "float")))).
    discriminate.
Defined.

Lemma has_key_app k kw1 kw2 :
  has_key k (kw1 ++ kw2) = has_key k kw1 || has_key k kw2.
Proof.
  unfold has_key. induction kw1 as [| [k' v] kw1 IH]; simpl.
  - destruct (assoc k kw2); reflexivity.
  - destruct (String.eqb k k'); [reflexivity | exact IH].
Qed.

Lemma has_key_combine k params (args : list pyobj) :
  has_key k (combine params args) = true ->
  existsb (String.eqb k) params = true.
Proof.
  revert args. induction params as [| p params IH]; intros args H;
    [discriminate |].
  destruct args as [| a args]; [discriminate |].
  unfold has_key in H. simpl in H |- *.
  destruct (String.eqb k p); [reflexivity |].
  apply (IH args). exact H.
Qed.

Lemma bind_keywords_no_fuel params bound kw :
  bind_keywords params bound kw <> Fuel.
Proof.
  revert bound. induction kw as [| [k v] kw IH]; intros bound; simpl;
    [discriminate |].
  destruct (String.eqb k "self" || has_key k bound); [discriminate |].
  destruct (existsb (String.eqb k) params); [apply IH |].
  specialize (IH bound).
  destruct (bind_keywords params bound kw) as [[b r] | e |]; simpl;
    congruence.
Qed.

Lemma bind_call_no_fuel params args kw : bind_call params args kw <> Fuel.
Proof.
  unfold bind_call. destruct (first_repeat [] kw); [discriminate |].
  pose proof (bind_keywords_no_fuel params (combine params args) kw) as H.
  destruct (bind_keywords params (combine params args) kw) as [[b r] | e |];
    simpl; try congruence.
  destruct (List.length params <? List.length args)%nat; [discriminate |].
  destruct (filter (fun p => negb (has_key p b)) params); discriminate.
Qed.

(** What a binding that succeeds has done. *)
Lemma bind_keywords_inv params kw :
  forall bound bound' rest,
    bind_keywords params bound kw = Ok (bound', rest) ->
    bound' = bound ++ filter (fun kv => existsb (String.eqb (fst kv)) params) kw
    /\ rest = other_keywords params kw.
Proof.
  induction kw as [| [k v] kw IH]; intros bound bound' rest H; simpl in H.
  - inversion H. rewrite app_nil_r. split; reflexivity.
  - destruct (String.eqb k "self" || has_key k bound); [discriminate |].
    unfold other_keywords. simpl.
    destruct (existsb (String.eqb k) params) eqn:Ek; simpl.
    + apply IH in H. destruct H as [-> ->].
      rewrite <- app_assoc. split; reflexivity.
    + destruct (bind_keywords params bound kw) as [[b r] | e |] eqn:Eb;
        simpl in H; try discriminate.
      inversion H; subst bound' rest.
      apply IH in Eb. destruct Eb as [-> ->]. split; reflexivity.
Qed.

Lemma bind_call_inv params args kw bound rest :
  bind_call params args kw = Ok (bound, rest) ->
  bound = combine params args
            ++ filter (fun kv => existsb (String.eqb (fst kv)) params) kw
  /\ rest = other_keywords params kw
  /\ (List.length args <= List.length params)%nat.
Proof.
  unfold bind_call. intros H.
  destruct (first_repeat [] kw); [discriminate |].
  destruct (bind_keywords params (combine params args) kw)
    as [[b r] | e |] eqn:Eb; simpl in H; try discriminate.
  destruct (Nat.ltb_spec (List.length params) (List.length args));
    [discriminate |].
  destruct (filter (fun p => negb (has_key p b)) params); [| discriminate].
  inversion H; subst b r.
  apply bind_keywords_inv in Eb. destruct Eb as [-> ->].
  repeat split. lia.
Qed.

(** Free keywords pass through the binding untouched. *)
Lemma bind_keywords_free params kw :
  forall bound,
    forallb (fun kv => negb (String.eqb (fst kv) "self")
                       && negb (existsb (String.eqb (fst kv)) params)) kw = true ->
    (forall k, has_key k bound = true -> existsb (String.eqb k) params = true) ->
    bind_keywords params bound kw = Ok (bound, kw).
Proof.
  induction kw as [| [k v] kw IH]; intros bound Hfree Hb; [reflexivity |].
  simpl in Hfree |- *. apply andb_true_iff in Hfree. destruct Hfree as [Hk Hfree].
  apply andb_true_iff in Hk. destruct Hk as [Hself Hpar].
  apply negb_true_iff in Hself. apply negb_true_iff in Hpar.
  rewrite Hself, Hpar.
  destruct (has_key k bound) eqn:Ek.
  - apply Hb in Ek. congruence.
  - simpl. rewrite (IH bound Hfree Hb). reflexivity.
Qed.

Lemma free_keywords_weaken params params' kw :
  (forall k, existsb (String.eqb k) params' = true ->
             existsb (String.eqb k) params = true) ->
  free_keywords params kw = true -> free_keywords params' kw = true.
Proof.
  intros Hsub H. unfold free_keywords in *. apply andb_true_iff in H.
  destruct H as [Hu Hf]. rewrite Hu. clear Hu. simpl.
  induction kw as [| [k v] kw IH]; [reflexivity |].
  simpl in Hf |- *. apply andb_true_iff in Hf. destruct Hf as [Hk Hf].
  rewrite IH by exact Hf.
  apply andb_true_iff in Hk. destruct Hk as [Hs Hp]. rewrite Hs. simpl.
  apply negb_true_iff in Hp.
  destruct (existsb (String.eqb k) params') eqn:E; [| reflexivity].
  apply Hsub in E. congruence.
Qed.

Lemma Gate_call_free c t kw :
  free_keywords ["targets"%string] kw = true ->
  Gate_call c [t] kw = Gate_init c t kw.
Proof.
  intros H. unfold free_keywords in H. apply andb_true_iff in H.
  destruct H as [Hu Hf]. unfold Gate_call, bind_call.
  destruct (first_repeat [] kw); [discriminate |].
  rewrite bind_keywords_free;
    [reflexivity | exact Hf | intros k; apply has_key_combine].
Qed.

Lemma Rotation_call_free c t th kw :
  free_keywords ["targets"%string; "theta"%string] kw = true ->
  Rotation_call c [t; th] kw
  = (self <- Gate_init c t kw ;; Ok (set_theta self th)).
Proof.
  intros H.
  assert (H' : free_keywords ["targets"%string] kw = true).
  { apply (free_keywords_weaken ["targets"%string; "theta"%string]);
      [| exact H].
    intros k Hk. simpl in Hk |- *. rewrite orb_false_r in Hk.
    rewrite Hk. reflexivity. }
  unfold free_keywords in H. apply andb_true_iff in H.
  destruct H as [Hu Hf]. unfold Rotation_call, bind_call.
  destruct (first_repeat [] kw); [discriminate |].
  rewrite bind_keywords_free;
    [| exact Hf | intros k; apply has_key_combine].
  cbn. unfold Rotation_init. rewrite Gate_call_free by exact H'. reflexivity.
Qed.

Lemma Gate_call_raises c args kw :
  lowername c = None -> raises (Gate_call c args kw) = true.
Proof.
  intros Hnone. unfold Gate_call.
  pose proof (bind_call_no_fuel ["targets"%string] args kw) as Hnf.
  destruct (bind_call ["targets"%string] args kw) as [[bound rest] | e |];
    simpl; [| reflexivity | congruence].
  unfold param. destruct (assoc "targets" bound); simpl; [| reflexivity].
  unfold Gate_init. rewrite Hnone. reflexivity.
Qed.

Lemma Gate_call_inv c args kw g :
  Gate_call c args kw = Ok g ->
  (exists name, lowername c = Some name)
  /\ gate_cls g = c
  /\ kwargs g = other_keywords ["targets"%string] kw
  /\ theta g = None
  /\ (List.length args <= 1)%nat
  /\ assoc "targets"
       (combine ["targets"%string] args
          ++ filter (fun kv => existsb (String.eqb (fst kv)) ["targets"%string]) kw)
     = Some (targets g).
Proof.
  unfold Gate_call. intros H.
  destruct (bind_call ["targets"%string] args kw) as [[bound rest] | e |] eqn:Eb;
    simpl in H; try discriminate.
  apply bind_call_inv in Eb. destruct Eb as (-> & -> & Hlen).
  unfold param in H.
  match type of H with
  | context [assoc "targets" ?b] => destruct (assoc "targets" b) as [t |] eqn:Et
  end; simpl in H; try discriminate.
  unfold Gate_init in H. destruct (lowername c) as [name |] eqn:En;
    try discriminate.
  inversion H; subst g. simpl.
  split; [exists name; reflexivity |]. repeat split. exact Hlen.
Qed.

(** C6: constructing a gate of a class whose [lowername] is left undefined
    fails, whatever the positional and keyword arguments: with a
    [ValueError] naming the class when the arguments bind to the
    parameters, with the interpreter's [TypeError] when they do not.
    Constructing a gate of a class that defines its [lowername], with the
    positional arguments the class expects and keywords that name no
    parameter, succeeds and stores the targets (and the keywords) it was
    given. *)
Theorem construction_needs_lowername :
  forall (c : gate_class) (t theta : pyobj) (kw : list (string * pyobj)),
    (lowername c = None ->
     (forall args kw', raises (construct c args kw') = true)
     /\ (free_keywords (class_params c) kw = true ->
         construct c (call_args c t theta) kw
         = Raise (ValueError (cls_name c ++ ".lowername is not defined.")%string)))
    /\ (lowername c <> None ->
        free_keywords (class_params c) kw = true ->
        exists g, construct c (call_args c t theta) kw = Ok g
                  /\ targets g = t
                  /\ gate_cls g = c
                  /\ kwargs g = kw).
Proof.
  intros c t theta kw. split.
  - intros Hnone.
    destruct (lowername_none_cases c Hnone) as [-> | [-> | ->]];
      (split;
       [ intros args kw'; apply Gate_call_raises; reflexivity
       | intros Hfree; cbn in Hfree |- *;
         rewrite Gate_call_free by exact Hfree; reflexivity ]).
  - intros Hsome Hfree.
    destruct c; try (exfalso; apply Hsome; reflexivity);
      cbn in Hfree |- *;
      first [ rewrite Gate_call_free by exact Hfree
            | rewrite Rotation_call_free by exact Hfree ];
      eexists; repeat split.
Qed.

Lemma construction_needs_lowername_witness :
  raises (construct OneQubitGate [PInt 0; PInt 1] []) = true
  /\ raises (construct Gate [PInt 0] [("targets"%string, PInt 1)]) = true
  /\ construct TwoQubitGate [PTuple [PInt 0; PInt 1]] []
     = Raise (ValueError "TwoQubitGate.lowername is not defined.")
  /\ exists g, construct RYGate [PSlice None None None; PObj "float"]
                 [("label"%string, PObj "str")] = Ok g
               /\ targets g = PSlice None None None
               /\ gate_cls g = RYGate
               /\ kwargs g = [("label"%string, PObj "str")].
Proof.
  split; [| split; [| split]].
  - destruct (construction_needs_lowername OneQubitGate (PInt 0) (PInt 0) [])
      as [H _].
    apply (proj1 (H eq_refl)).
  - destruct (construction_needs_lowername Gate (PInt 0) (PInt 0) [])
      as [H _].
    apply (proj1 (H eq_refl)).
  - destruct (construction_needs_lowername TwoQubitGate
                (PTuple [PInt 0; PInt 1]) (PInt 0) []) as [H _].
    apply (proj2 (H eq_refl)). reflexivity.
  - destruct (construction_needs_lowername RYGate
                (PSlice None None None) (PObj "float")
                [("label"%string, PObj "str")]) as [_ H].
    apply H; [discriminate | reflexivity].
Defined.

(** C7: the decomposition of the identity gate is the empty gate sequence.
    For every targets specifier [IGate(targets)] is constructed, and
    [fallback] on it returns the empty list and raises nothing; the same
    holds of every [IGate] the constructor returns, whatever the call. *)
Theorem identity_fallback_is_empty :
  forall t : pyobj,
    (exists g, construct IGate [t] [] = Ok g /\ targets g = t
               /\ fallback g = Ok [])
    /\ (g <- construct IGate [t] [] ;; fallback g) = Ok []
    /\ (forall args kw g, construct IGate args kw = Ok g -> fallback g = Ok [])
    /\ (forall kw th, fallback (mkGate IGate kw t th) = Ok []).
Proof.
  intros t. split; [| split; [| split]].
  - eexists. repeat split.
  - reflexivity.
  - intros args kw g H. change (Gate_call IGate args kw = Ok g) in H.
    apply Gate_call_inv in H. destruct H as (_ & Hc & _).
    unfold fallback. rewrite Hc. reflexivity.
  - reflexivity.
Qed.

Lemma identity_fallback_is_empty_witness :
  fallback (mkGate IGate [("label"%string, PObj "str")] (PInt 2) None) = Ok [].
Proof.
  destruct (identity_fallback_is_empty (PInt 0)) as (_ & _ & H & _).
  apply (H [] [("targets"%string, PInt 2); ("label"%string, PObj "str")]).
  reflexivity.
Defined.

(** ** Further properties of the resolver *)

Lemma mapM_app {A B : Type} (f : A -> outcome B) xs ys bs cs :
  mapM f xs = Ok bs -> mapM f ys = Ok cs -> mapM f (xs ++ ys) = Ok (bs ++ cs).
Proof.
  revert bs. induction xs as [| x xs IH]; intros bs Hx Hy; simpl in Hx.
  - inversion Hx. exact Hy.
  - cbn [app mapM]. destruct (f x) as [b | |]; cbn [bind] in Hx |- *;
      try discriminate.
    destruct (mapM f xs) as [bs' | |]; cbn [bind] in Hx; try discriminate.
    inversion Hx. rewrite (IH bs' eq_refl Hy). reflexivity.
Qed.

Lemma mapM_in {A B : Type} (f : A -> outcome B) l bs a :
  mapM f l = Ok bs -> In a l -> exists b, f a = Ok b /\ In b bs.
Proof.
  revert bs. induction l as [| x l IH]; intros bs H Ha; [destruct Ha |].
  cbn [mapM] in H. destruct (f x) as [b | |] eqn:Ex; cbn [bind] in H;
    try discriminate.
  destruct (mapM f l) as [bs' | |]; cbn [bind] in H; try discriminate.
  inversion H; subst bs. destruct Ha as [<- | Ha].
  - exists b. split; [exact Ex | left; reflexivity].
  - destruct (IH bs' eq_refl Ha) as (b' & E & Hin).
    exists b'. split; [exact E | right; exact Hin].
Qed.

Lemma mapM_in_inv {A B : Type} (f : A -> outcome B) l bs b :
  mapM f l = Ok bs -> In b bs -> exists a, In a l /\ f a = Ok b.
Proof.
  revert bs. induction l as [| x l IH]; intros bs H Hb; cbn [mapM] in H.
  - inversion H; subst. destruct Hb.
  - destruct (f x) as [b0 | |] eqn:Ex; cbn [bind] in H; try discriminate.
    destruct (mapM f l) as [bs' | |]; cbn [bind] in H; try discriminate.
    inversion H; subst bs. destruct Hb as [<- | Hb].
    + exists x. split; [left; reflexivity | exact Ex].
    + destruct (IH bs' eq_refl Hb) as (a & Ha & E).
      exists a. split; [right; exact Ha | exact E].
Qed.

Lemma mapM_agree {A B : Type} (f g : A -> outcome B) l :
  (forall a, In a l -> f a <> Fuel -> g a = f a) ->
  mapM f l <> Fuel -> mapM g l = mapM f l.
Proof.
  induction l as [| x l IH]; intros Hfg Hnf; [reflexivity |].
  cbn [mapM] in *.
  assert (Hx : f x <> Fuel).
  { intros E. rewrite E in Hnf. apply Hnf. reflexivity. }
  rewrite (Hfg x (or_introl eq_refl) Hx).
  destruct (f x) as [b | e |]; cbn [bind] in *; try reflexivity.
  assert (Hl : mapM f l <> Fuel).
  { intros E. rewrite E in Hnf. apply Hnf. reflexivity. }
  rewrite IH; [reflexivity | | exact Hl].
  intros a Ha. apply Hfg. right. exact Ha.
Qed.


Lemma while_lt_mono step stop fuel fuel' i :
  (fuel <= fuel')%nat -> while_lt fuel i stop step <> Fuel ->
  while_lt fuel' i stop step = while_lt fuel i stop step.
Proof.
  revert fuel' i. induction fuel as [| fuel IH]; intros fuel' i Hle Hnf.
  - exfalso. apply Hnf. reflexivity.
  - destruct fuel' as [| fuel']; [lia |]. cbn [while_lt] in *.
    destruct (i <? stop); [| reflexivity].
    rewrite IH; [reflexivity | lia |].
    intros E. rewrite E in Hnf. apply Hnf. reflexivity.
Qed.

Lemma while_gt_mono step stop fuel fuel' i :
  (fuel <= fuel')%nat -> while_gt fuel i stop step <> Fuel ->
  while_gt fuel' i stop step = while_gt fuel i stop step.
Proof.
  revert fuel' i. induction fuel as [| fuel IH]; intros fuel' i Hle Hnf.
  - exfalso. apply Hnf. reflexivity.
  - destruct fuel' as [| fuel']; [lia |]. cbn [while_gt] in *.
    destruct (i >? stop); [| reflexivity].
    rewrite IH; [reflexivity | lia |].
    intros E. rewrite E in Hnf. apply Hnf. reflexivity.
Qed.

Lemma slicing_singlevalue_mono fuel fuel' arg n :
  (fuel <= fuel')%nat -> slicing_singlevalue fuel arg n <> Fuel ->
  slicing_singlevalue fuel' arg n = slicing_singlevalue fuel arg n.
Proof.
  intros Hle Hnf. destruct arg as [i | start stop step | items | cls];
    try reflexivity.
  unfold slicing_singlevalue in *.
  destruct (slice_indices start stop step n) as [[[lo hi] st] | e |];
    cbn [bind] in *; try reflexivity.
  destruct (st >? 0); [apply while_lt_mono | apply while_gt_mono]; assumption.
Qed.

Lemma slicing_mono fuel fuel' args n :
  (fuel <= fuel')%nat -> slicing fuel args n <> Fuel ->
  slicing fuel' args n = slicing fuel args n.
Proof.
  intros Hle Hnf. destruct args as [i | start stop step | items | cls];
    try (apply slicing_singlevalue_mono; assumption).
  unfold slicing in *.
  assert (Hm : mapM (fun arg => slicing_singlevalue fuel arg n) items <> Fuel).
  { intros E. rewrite E in Hnf. apply Hnf. reflexivity. }
  rewrite (mapM_agree (fun arg => slicing_singlevalue fuel arg n)
             (fun arg => slicing_singlevalue fuel' arg n)); [reflexivity | | exact Hm].
  intros a _ Ha. apply slicing_singlevalue_mono; assumption.
Qed.





(** X1: resolving a tuple is the concatenation, in order, of resolving its
    elements: if two tuples resolve, the tuple of all their elements
    resolves to the first result followed by the second; and a tuple
    holding one index or range resolves like that element alone. *)
Theorem slicing_tuple_concatenates :
  forall (fuel : nat) (xs ys : list pyobj) (n : Z) (l1 l2 : list Z),
    slicing fuel (PTuple xs) n = Ok l1 ->
    slicing fuel (PTuple ys) n = Ok l2 ->
    slicing fuel (PTuple (xs ++ ys)) n = Ok (l1 ++ l2)
    /\ (forall a, is_tuple a = false ->
                  slicing fuel (PTuple [a]) n = slicing fuel a n).
Proof.
  intros fuel xs ys n l1 l2 H1 H2. split.
  - unfold slicing in *.
    destruct (mapM (fun arg => slicing_singlevalue fuel arg n) xs)
      as [c1 | |] eqn:E1; cbn [bind] in H1; try discriminate.
    destruct (mapM (fun arg => slicing_singlevalue fuel arg n) ys)
      as [c2 | |] eqn:E2; cbn [bind] in H2; try discriminate.
    rewrite (mapM_app _ _ _ _ _ E1 E2). cbn [bind].
    inversion H1. inversion H2. rewrite concat_app. reflexivity.
  - intros a Ha. destruct a as [i | start stop step | items | cls];
      try discriminate; unfold slicing; cbn [mapM];
      match goal with
      | |- context [slicing_singlevalue ?f ?a ?m] =>
          destruct (slicing_singlevalue f a m) as [l | e |]
      end; cbn [bind List.concat]; rewrite ?app_nil_r; reflexivity.
Qed.

Lemma slicing_tuple_concatenates_witness :
  slicing 5 (PTuple ([PInt 3; PSlice None (Some 2) None] ++ [PInt (-1)])) 4
  = Ok ([3; 0; 1] ++ [3]).
Proof.
  apply (slicing_tuple_concatenates 5 [PInt 3; PSlice None (Some 2) None]
           [PInt (-1)] 4 [3; 0; 1] [3]); reflexivity.
Defined.



Lemma nth_error_progression first step count i x :
  nth_error (progression first step count) i = Some x ->
  x = first + Z.of_nat i * step /\ (i < count)%nat.
Proof.
  revert first i. induction count as [| count IH]; intros first i H.
  - destruct i; discriminate.
  - rewrite progression_S in H. destruct i as [| i]; simpl in H.
    + inversion H. split; lia.
    + apply IH in H. destruct H as [-> Hi]. split; lia.
Qed.

Lemma while_lt_never_raises fuel i stop step :
  raises (while_lt fuel i stop step) = false.
Proof.
  revert i. induction fuel as [| fuel IH]; intros i; [reflexivity |].
  simpl. destruct (i <? stop); [| reflexivity].
  specialize (IH (i + step)).
  destruct (while_lt fuel (i + step) stop step); [reflexivity | discriminate | reflexivity].
Qed.

Lemma while_gt_never_raises fuel i stop step :
  raises (while_gt fuel i stop step) = false.
Proof.
  revert i. induction fuel as [| fuel IH]; intros i; [reflexivity |].
  simpl. destruct (i >? stop); [| reflexivity].
  specialize (IH (i + step)).
  destruct (while_gt fuel (i + step) stop step); [reflexivity | discriminate | reflexivity].
Qed.

(** A range that resolves does so to the progression of the
    specification, whatever budget it was given. *)
Lemma slicing_singlevalue_slice_inv fuel start stop step n l :
  slicing_singlevalue fuel (PSlice start stop step) n = Ok l ->
  0 <= n /\ spec_step step <> 0
  /\ l = progression (spec_start start n (spec_step step)) (spec_step step)
           (range_len (spec_start start n (spec_step step))
              (spec_stop stop n (spec_step step)) (spec_step step)).
Proof.
  intros H.
  assert (Hn : 0 <= n).
  { destruct (Z_lt_ge_dec n 0) as [Hneg |]; [exfalso | lia].
    unfold slicing_singlevalue, slice_indices in H.
    destruct (Z.ltb_spec n 0); [discriminate | lia]. }
  assert (Hs : spec_step step <> 0).
  { intros Hz. unfold slicing_singlevalue in H.
    rewrite slice_indices_zero_step in H by assumption. discriminate. }
  split; [exact Hn |]. split; [exact Hs |].
  assert (Hnf : slicing_singlevalue fuel (PSlice start stop step) n <> Fuel)
    by (rewrite H; discriminate).
  pose proof (slicing_singlevalue_mono fuel (fuel + S (Z.to_nat n))
                (PSlice start stop step) n ltac:(lia) Hnf) as E.
  rewrite slicing_singlevalue_slice in E by (assumption || lia).
  rewrite H in E. inversion E. reflexivity.
Qed.

(** X4: a range resolves to qubits in strictly monotone order, ascending
    for a positive step and descending for a negative one; so no qubit is
    named twice and at most [n] qubits are named. *)
Theorem slice_result_strictly_monotone :
  forall (fuel : nat) (start stop step : option Z) (n : Z) (l : list Z),
    slicing_singlevalue fuel (PSlice start stop step) n = Ok l ->
    (forall i j x y,
        (i < j)%nat -> nth_error l i = Some x -> nth_error l j = Some y ->
        if spec_step step >? 0 then x < y else y < x)
    /\ NoDup l
    /\ (List.length l <= Z.to_nat n)%nat.
Proof.
  intros fuel start stop step n l H.
  apply slicing_singlevalue_slice_inv in H. destruct H as (Hn & Hs & ->).
  set (st := spec_step step) in *.
  set (lo := spec_start start n st). set (hi := spec_stop stop n st).
  assert (Hord : forall i j x y,
             (i < j)%nat ->
             nth_error (progression lo st (range_len lo hi st)) i = Some x ->
             nth_error (progression lo st (range_len lo hi st)) j = Some y ->
             if st >? 0 then x < y else y < x).
  { intros i j x y Hij Hx Hy.
    apply nth_error_progression in Hx. apply nth_error_progression in Hy.
    destruct Hx as [-> _]. destruct Hy as [-> _].
    destruct (Z.gtb_spec st 0); nia. }
  split; [exact Hord |]. split.
  - apply NoDup_nth_error. intros i j Hi E.
    destruct (nth_error (progression lo st (range_len lo hi st)) i) as [x |] eqn:Ex.
    2:{ apply nth_error_None in Ex. lia. }
    symmetry in E.
    destruct (Nat.lt_trichotomy i j) as [Hlt | [Heq | Hgt]]; [| exact Heq |].
    + pose proof (Hord i j x x Hlt Ex E) as Hc.
      destruct (st >? 0); lia.
    + pose proof (Hord j i x x Hgt E Ex) as Hc.
      destruct (st >? 0); lia.
  - unfold progression. rewrite length_map, length_seq.
    apply range_len_bound; assumption.
Qed.

Lemma slice_result_strictly_monotone_witness :
  (forall i j x y,
      (i < j)%nat -> nth_error [4; 2; 0] i = Some x ->
      nth_error [4; 2; 0] j = Some y ->
      if spec_step (Some (-2)) >? 0 then x < y else y < x)
  /\ NoDup [4; 2; 0]
  /\ (List.length [4; 2; 0] <= Z.to_nat 5)%nat.
Proof.
  apply (slice_result_strictly_monotone 6 None None (Some (-2)) 5 [4; 2; 0]).
  reflexivity.
Defined.

Lemma progression_unit_step a count : progression a 1 count = upfrom a count.
Proof.
  unfold progression, upfrom. apply map_ext. intros k. lia.
Qed.

Lemma upfrom_S a count : upfrom a (S count) = upfrom a count ++ [a + Z.of_nat count].
Proof. unfold upfrom. rewrite seq_S, map_app. reflexivity. Qed.

Lemma progression_down_rev count :
  progression (Z.of_nat count - 1) (-1) count = rev (upfrom 0 count).
Proof.
  induction count as [| count IH]; [reflexivity |].
  rewrite upfrom_S, rev_app_distr, progression_S. simpl rev. simpl app.
  f_equal; [lia |]. rewrite <- IH. f_equal. lia.
Qed.

(** X5: the plain ranges are what one expects.  For [0 <= a <= b <= n] the
    range [a:b] resolves to [a, a+1, ..., b-1]; the full range [:] resolves
    to all [n] qubits in order; and [::-1] resolves to the same qubits in
    reverse order. *)
Theorem contiguous_and_reversed_ranges :
  forall (fuel : nat) (n : Z),
    0 <= n -> (Z.to_nat n < fuel)%nat ->
    (forall a b, 0 <= a -> a <= b -> b <= n ->
                 slicing fuel (PSlice (Some a) (Some b) None) n
                 = Ok (upfrom a (Z.to_nat (b - a))))
    /\ slicing fuel (PSlice None None None) n = Ok (upfrom 0 (Z.to_nat n))
    /\ slicing fuel (PSlice None None (Some (-1))) n
       = Ok (rev (upfrom 0 (Z.to_nat n))).
Proof.
  intros fuel n Hn Hfuel. split; [| split].
  - intros a b Ha Hab Hb. unfold slicing.
    rewrite slicing_singlevalue_slice by (assumption || discriminate).
    cbn [spec_step]. rewrite progression_unit_step.
    assert (Elo : spec_start (Some a) n 1 = a).
    { unfold spec_start, spec_bound, clamp. simpl.
      destruct (Z.ltb_spec a 0); lia. }
    assert (Ehi : spec_stop (Some b) n 1 = b).
    { unfold spec_stop, spec_bound, clamp. simpl.
      destruct (Z.ltb_spec b 0); lia. }
    rewrite Elo, Ehi. unfold range_len. simpl.
    replace (b - a + 1 - 1) with (b - a) by lia. rewrite Z.div_1_r. reflexivity.
  - unfold slicing.
    rewrite slicing_singlevalue_slice by (assumption || discriminate).
    cbn [spec_step spec_start spec_stop]. simpl. rewrite progression_unit_step.
    unfold range_len. simpl.
    replace (n - 0 + 1 - 1) with n by lia. rewrite Z.div_1_r. reflexivity.
  - unfold slicing.
    rewrite slicing_singlevalue_slice by (assumption || discriminate).
    cbn [spec_step spec_start spec_stop]. simpl.
    unfold range_len. simpl.
    replace (n - 1 - -1 - -1 - 1) with n by lia. rewrite Z.div_1_r.
    rewrite <- progression_down_rev. rewrite Z2Nat.id by lia. reflexivity.
Qed.

Lemma contiguous_and_reversed_ranges_witness :
  slicing 5 (PSlice (Some 1) (Some 3) None) 4 = Ok [1; 2]
  /\ slicing 5 (PSlice None None None) 4 = Ok [0; 1; 2; 3]
  /\ slicing 5 (PSlice None None (Some (-1))) 4 = Ok [3; 2; 1; 0].
Proof.
  destruct (contiguous_and_reversed_ranges 5 4 ltac:(lia) ltac:(vm_compute; lia))
    as (Hc & Hf & Hr).
  split; [apply Hc; lia |]. split; [exact Hf | exact Hr].
Defined.

(** X6: resolving a range raises exactly when the qubit count is negative
    or the step is zero, and then it is a [ValueError]; no other range is
    ever rejected. *)
Theorem slice_raises_iff_bad_step_or_count :
  forall (fuel : nat) (start stop step : option Z) (n : Z),
    (raises (slicing_singlevalue fuel (PSlice start stop step) n) = true
     <-> n < 0 \/ spec_step step = 0)
    /\ (n < 0 \/ spec_step step = 0 ->
        is_value_error (slicing_singlevalue fuel (PSlice start stop step) n)
        = true).
Proof.
  intros fuel start stop step n.
  assert (Hbad : n < 0 \/ spec_step step = 0 ->
                 is_value_error
                   (slicing_singlevalue fuel (PSlice start stop step) n) = true).
  { intros Hb. unfold slicing_singlevalue, slice_indices.
    fold (spec_step step).
    destruct (Z.ltb_spec n 0); [reflexivity |].
    destruct (Z.eqb_spec (spec_step step) 0); [reflexivity | lia]. }
  split; [| exact Hbad]. split.
  - intros Hr.
    destruct (Z_lt_ge_dec n 0) as [| Hn]; [left; assumption |].
    destruct (Z.eq_dec (spec_step step) 0) as [| Hs]; [right; assumption |].
    exfalso. unfold slicing_singlevalue in Hr.
    rewrite slice_indices_spec in Hr by (assumption || lia). cbn [bind] in Hr.
    destruct (spec_step step >? 0);
      [rewrite while_lt_never_raises in Hr | rewrite while_gt_never_raises in Hr];
      discriminate.
  - intros Hb. specialize (Hbad Hb).
    destruct (slicing_singlevalue fuel (PSlice start stop step) n) as [l | e |];
      try discriminate. reflexivity.
Qed.

Lemma slice_raises_iff_bad_step_or_count_witness :
  is_value_error (slicing_singlevalue 3 (PSlice None None None) (-1)) = true
  /\ is_value_error (slicing_singlevalue 3 (PSlice (Some 1) None (Some 0)) 2)
     = true.
Proof.
  split.
  - apply (proj2 (slice_raises_iff_bad_step_or_count 3 None None None (-1))).
    left. lia.
  - apply (proj2 (slice_raises_iff_bad_step_or_count 3 (Some 1) None (Some 0) 2)).
    right. reflexivity.
Defined.

(** X7: for [-n <= i < n] a single index resolves to [i mod n], a qubit of
    the circuit; so [i] and [i - n] name the same qubit. *)
Theorem single_index_is_modular :
  forall (fuel : nat) (i n : Z),
    - n <= i -> i < n ->
    slicing fuel (PInt i) n = Ok [i mod n]
    /\ 0 <= i mod n < n
    /\ (0 <= i -> slicing fuel (PInt (i - n)) n = slicing fuel (PInt i) n).
Proof.
  intros fuel i n Hlo Hhi.
  assert (Hn : 0 < n) by lia.
  assert (Hw : wrap_index i n = i mod n).
  { unfold wrap_index. destruct (Z.ltb_spec i 0).
    - apply (Z.mod_unique i n (-1) (i + n)); lia.
    - symmetry. apply Z.mod_small. lia. }
  rewrite slicing_int, Hw.
  split; [reflexivity |]. split; [apply Z.mod_pos_bound; exact Hn |].
  intros Hi. rewrite slicing_int. unfold wrap_index.
  destruct (Z.ltb_spec (i - n) 0); [| lia].
  rewrite <- Hw. unfold wrap_index.
  destruct (Z.ltb_spec i 0); [lia |]. do 2 f_equal. lia.
Qed.

Lemma single_index_is_modular_witness :
  slicing 0 (PInt (-1)) 3 = Ok [(-1) mod 3]
  /\ 0 <= (-1) mod 3 < 3
  /\ slicing 0 (PInt (2 - 3)) 3 = slicing 0 (PInt 2) 3.
Proof.
  destruct (single_index_is_modular 0 (-1) 3 ltac:(lia) ltac:(lia))
    as (H1 & H2 & _).
  destruct (single_index_is_modular 0 2 3 ltac:(lia) ltac:(lia))
    as (_ & _ & H3).
  split; [exact H1 |]. split; [exact H2 | apply H3; lia].
Defined.

Lemma check_distinct_inv pairs :
  check_distinct pairs = Ok tt -> forall p, In p pairs -> fst p <> snd p.
Proof.
  induction pairs as [| [c z] pairs IH]; intros H p Hp; [destruct Hp |].
  simpl in H. destruct (Z.eqb_spec c z); [discriminate |].
  destruct Hp as [<- | Hp]; [exact n | apply IH; assumption].
Qed.

Lemma combine_fst_snd (cs ts : list Z) :
  List.length cs = List.length ts ->
  map fst (combine cs ts) = cs /\ map snd (combine cs ts) = ts.
Proof.
  revert ts. induction cs as [| c cs IH]; intros [| t ts] Hlen;
    simpl in *; try lia; [split; reflexivity |].
  destruct (IH ts ltac:(lia)) as [-> ->]. split; reflexivity.
Qed.

(** X8: whatever [qubit_pairs] returns is sound: the specifier was a tuple
    of exactly two sides, the controls of the pairs are the resolution of
    the first side and the targets the resolution of the second, in order,
    and no pair has its control equal to its target. *)
Theorem qubit_pairs_result_sound :
  forall (fuel : nat) (args : pyobj) (n : Z) (pairs : list (Z * Z)),
    qubit_pairs fuel args n = Ok pairs ->
    exists c t,
      args = PTuple [c; t]
      /\ slicing fuel c n = Ok (map fst pairs)
      /\ slicing fuel t n = Ok (map snd pairs)
      /\ forall p, In p pairs -> fst p <> snd p.
Proof.
  intros fuel args n pairs H.
  destruct args as [i | start stop step | items | cls]; try discriminate.
  unfold qubit_pairs in H.
  destruct items as [| c [| t [| x items]]]; try discriminate.
  cbn [List.length Nat.eqb negb nth] in H.
  destruct (slicing fuel c n) as [cs | |] eqn:Ec; cbn [bind] in H;
    try discriminate.
  destruct (slicing fuel t n) as [ts | |] eqn:Et; cbn [bind] in H;
    try discriminate.
  destruct (Nat.eqb_spec (List.length cs) (List.length ts)) as [Hlen |];
    cbn [negb] in H; try discriminate.
  destruct (check_distinct (combine cs ts)) as [[] | |] eqn:Ed;
    cbn [bind] in H; try discriminate.
  inversion H; subst pairs.
  destruct (combine_fst_snd cs ts Hlen) as [-> ->].
  exists c, t.
  split; [reflexivity |]. split; [exact Ec |]. split; [exact Et |].
  apply check_distinct_inv. exact Ed.
Qed.

Lemma qubit_pairs_result_sound_witness :
  exists c t,
    PTuple [PSlice None (Some 2) None; PTuple [PInt 3; PInt 2]] = PTuple [c; t]
    /\ slicing 5 c 4 = Ok (map fst [(0, 3); (1, 2)])
    /\ slicing 5 t 4 = Ok (map snd [(0, 3); (1, 2)])
    /\ forall p, In p [(0, 3); (1, 2)] -> fst p <> snd p.
Proof.
  apply (qubit_pairs_result_sound 5
           (PTuple [PSlice None (Some 2) None; PTuple [PInt 3; PInt 2]]) 4).
  reflexivity.
Defined.

Lemma combine_swap (cs ts : list Z) :
  combine ts cs = map swap_pair (combine cs ts).
Proof.
  revert ts. induction cs as [| c cs IH]; intros [| t ts]; try reflexivity.
  simpl. rewrite IH. reflexivity.
Qed.

Lemma check_distinct_swap pairs :
  check_distinct (map swap_pair pairs) = check_distinct pairs.
Proof.
  induction pairs as [| [c z] pairs IH]; [reflexivity |].
  simpl. rewrite (Z.eqb_sym z c). destruct (c =? z); [reflexivity | exact IH].
Qed.

(** X9: exchanging the two sides of a control/target specifier exchanges
    the two components of every pair: if [(c, t)] resolves to pairs, then
    [(t, c)] resolves to the same pairs with control and target swapped. *)
Theorem qubit_pairs_swap :
  forall (fuel : nat) (c t : pyobj) (n : Z) (pairs : list (Z * Z)),
    qubit_pairs fuel (PTuple [c; t]) n = Ok pairs ->
    qubit_pairs fuel (PTuple [t; c]) n = Ok (map swap_pair pairs).
Proof.
  intros fuel c t n pairs H. unfold qubit_pairs in *.
  cbn [List.length Nat.eqb negb nth] in *.
  destruct (slicing fuel c n) as [cs | |]; cbn [bind] in H; try discriminate.
  destruct (slicing fuel t n) as [ts | |]; cbn [bind] in H |- *;
    try discriminate.
  rewrite (Nat.eqb_sym (List.length ts) (List.length cs)).
  destruct (negb (Nat.eqb (List.length cs) (List.length ts))); try discriminate.
  rewrite (combine_swap cs ts), check_distinct_swap.
  destruct (check_distinct (combine cs ts)); cbn [bind] in H |- *;
    try discriminate.
  inversion H. reflexivity.
Qed.

Lemma qubit_pairs_swap_witness :
  qubit_pairs 5 (PTuple [PTuple [PInt 2; PInt 3]; PSlice None (Some 2) None]) 4
  = Ok (map swap_pair [(0, 2); (1, 3)]).
Proof.
  apply (qubit_pairs_swap 5 (PSlice None (Some 2) None)
           (PTuple [PInt 2; PInt 3]) 4 [(0, 2); (1, 3)]).
  reflexivity.
Defined.

(** ** The inferred qubit count and the indices resolved against it *)

Lemma in_range_progression lo hi st x :
  st <> 0 ->
  In x (progression lo st (range_len lo hi st)) ->
  exists k, 0 <= k /\ x = lo + k * st
            /\ (if st >? 0 then x < hi else x > hi).
Proof.
  intros Hs Hx. apply in_progression in Hx. destruct Hx as (k & Hk & ->).
  exists k. split; [lia |]. split; [reflexivity |].
  destruct (Z.gtb_spec st 0).
  - apply (range_len_up lo hi st k); lia.
  - apply (range_len_down lo hi st k); lia.
Qed.

Lemma closed_elem_bound fuel o n l :
  closed_elem o = true -> slicing_singlevalue fuel o n = Ok l ->
  exists m, _maximum_idx_single o = Ok m /\ forall x, In x l -> 0 <= x <= m.
Proof.
  intros Hc H. destruct o as [i | [a |] [b |] step | items | cls];
    try discriminate.
  - simpl in Hc. apply Z.leb_le in Hc. exists i. split; [reflexivity |].
    rewrite slicing_singlevalue_int in H. inversion H; subst l.
    unfold wrap_index. destruct (Z.ltb_spec i 0); [lia |].
    intros x [<- | []]. lia.
  - simpl in Hc. apply andb_true_iff in Hc. destruct Hc as [Ha Hb].
    apply Z.leb_le in Ha. apply Z.leb_le in Hb.
    exists (Z.max a (b - 1)). split; [reflexivity |].
    apply slicing_singlevalue_slice_inv in H. destruct H as (Hn & Hs & ->).
    intros x Hx. apply in_range_progression in Hx; [| exact Hs].
    destruct Hx as (k & Hk & Ex & Hb').
    unfold spec_start, spec_stop, spec_bound, clamp in *.
    destruct (Z.ltb_spec a 0); [lia |]. destruct (Z.ltb_spec b 0); [lia |].
    destruct (Z.gtb_spec (spec_step step) 0); nia.
Qed.

Lemma closed_elem_not_tuple o : closed_elem o = true -> is_tuple o = false.
Proof. destruct o; simpl; intros; try discriminate; reflexivity. Qed.

Lemma slicing_not_tuple fuel o n :
  is_tuple o = false -> slicing fuel o n = slicing_singlevalue fuel o n.
Proof. destruct o; simpl; intros; try discriminate; reflexivity. Qed.

Lemma get_maximum_index_not_tuple o :
  is_tuple o = false -> get_maximum_index o = _maximum_idx_single o.
Proof. destruct o; simpl; intros; try discriminate; reflexivity. Qed.

Lemma py_max_upper ms m y : py_max ms = Ok m -> In y ms -> y <= m.
Proof.
  intros H Hy. destruct ms as [| x xs]; [destruct Hy |].
  inversion H. apply fold_max_spec. exact Hy.
Qed.

Lemma closed_spec_bound fuel spec n l m :
  closed_spec spec = true ->
  slicing fuel spec n = Ok l -> get_maximum_index spec = Ok m ->
  forall x, In x l -> 0 <= x <= m.
Proof.
  intros Hc Hl Hm x Hx.
  destruct (is_tuple spec) eqn:Ht.
  - destruct spec as [| | items |]; try discriminate.
    simpl in Hc. unfold slicing in Hl. unfold get_maximum_index in Hm.
    destruct (mapM (fun arg => slicing_singlevalue fuel arg n) items)
      as [chunks | |] eqn:Ech; cbn [bind] in Hl; try discriminate.
    destruct (mapM _maximum_idx_single items) as [ms | |] eqn:Ems;
      cbn [bind] in Hm; try discriminate.
    inversion Hl; subst l. apply in_concat in Hx.
    destruct Hx as (chunk & Hchunk & Hx).
    destruct (mapM_in_inv _ _ _ _ Ech Hchunk) as (o & Ho & Eo).
    pose proof (proj1 (forallb_forall closed_elem items) Hc o Ho) as Hco.
    destruct (closed_elem_bound fuel o n chunk Hco Eo) as (mo & Emo & Hb).
    destruct (mapM_in _ _ _ _ Ems Ho) as (mo' & Emo' & Hin).
    rewrite Emo in Emo'. inversion Emo'; subst mo'.
    pose proof (py_max_upper ms m mo Hm Hin). specialize (Hb x Hx). lia.
  - assert (Hce : closed_elem spec = true)
      by (destruct spec; try discriminate; exact Hc).
    rewrite slicing_not_tuple in Hl by exact Ht.
    rewrite get_maximum_index_not_tuple in Hm by exact Ht.
    destruct (closed_elem_bound fuel spec n l Hce Hl) as (m' & E & Hb).
    rewrite E in Hm. inversion Hm; subst m'. apply Hb. exact Hx.
Qed.

Lemma find_n_qubits_upper gates nq g m :
  find_n_qubits gates = Ok nq -> In g gates ->
  get_maximum_index (targets g) = Ok m -> m < nq.
Proof.
  intros H Hg Hm. unfold find_n_qubits in H.
  destruct (mapM (fun g => get_maximum_index (targets g)) gates)
    as [ms | |] eqn:Ems; cbn [bind] in H; try discriminate.
  destruct (mapM_in _ _ _ _ Ems Hg) as (m' & E & Hin).
  rewrite Hm in E. inversion E; subst m'.
  inversion H. destruct ms as [| x xs]; [destruct Hin |].
  pose proof (proj2 (fold_max_spec xs x) m Hin). simpl. lia.
Qed.

Lemma find_n_qubits_defined gates nq g :
  find_n_qubits gates = Ok nq -> In g gates ->
  exists m, get_maximum_index (targets g) = Ok m.
Proof.
  intros H Hg. unfold find_n_qubits in H.
  destruct (mapM (fun g => get_maximum_index (targets g)) gates)
    as [ms | |] eqn:Ems; cbn [bind] in H; try discriminate.
  destruct (mapM_in _ _ _ _ Ems Hg) as (m & E & _). exists m. exact E.
Qed.

(** X10: for a specifier that names its qubits outright (non-negative
    indices, ranges with both bounds given and non-negative, or a tuple of
    these), [get_maximum_index] is an upper bound of every index the
    specifier resolves to, whatever the qubit count it is resolved against,
    and every such index is non-negative. *)
Theorem maximum_index_bounds_resolution :
  forall (fuel : nat) (spec : pyobj) (n : Z) (l : list Z) (m : Z),
    closed_spec spec = true ->
    slicing fuel spec n = Ok l ->
    get_maximum_index spec = Ok m ->
    forall x, In x l -> 0 <= x <= m.
Proof.
  intros fuel spec n l m Hc Hl Hm x Hx.
  exact (closed_spec_bound fuel spec n l m Hc Hl Hm x Hx).
Qed.

Lemma maximum_index_bounds_resolution_witness :
  0 <= 3 <= 5 /\ 0 <= 1 <= 5.
Proof.
  split;
    apply (maximum_index_bounds_resolution 9
             (PTuple [PSlice (Some 3) (Some 0) (Some (-1)); PInt 5]) 8
             [3; 2; 1; 5] 5); try reflexivity; simpl; tauto.
Defined.

(** X11: the qubit count inferred for a circuit covers its gates: for any
    gate of the list whose specifier names its qubits outright, every index
    it resolves to against [find_n_qubits] of the list lies in [0, n); and
    for a two-sided specifier both components of every pair do. *)
Theorem inferred_count_covers_gates :
  forall (fuel : nat) (gates : list gate) (nq : Z) (g : gate),
    find_n_qubits gates = Ok nq -> In g gates ->
    closed_spec (targets g) = true ->
    (forall l, slicing fuel (targets g) nq = Ok l ->
               forall x, In x l -> 0 <= x < nq)
    /\ (forall pairs, qubit_pairs fuel (targets g) nq = Ok pairs ->
                      forall p, In p pairs ->
                                0 <= fst p < nq /\ 0 <= snd p < nq).
Proof.
  intros fuel gates nq g Hn Hg Hc.
  destruct (find_n_qubits_defined gates nq g Hn Hg) as (m & Hm).
  pose proof (find_n_qubits_upper gates nq g m Hn Hg Hm) as Hlt.
  split.
  - intros l Hl x Hx.
    pose proof (closed_spec_bound fuel (targets g) nq l m Hc Hl Hm x Hx). lia.
  - intros pairs Hp p Hin.
    destruct (targets g) as [i | a b st | items | cls] eqn:Et;
      try discriminate.
    unfold qubit_pairs in Hp.
    destruct items as [| c [| t [| y items]]]; try discriminate.
    cbn [List.length Nat.eqb negb nth] in Hp.
    simpl in Hc. rewrite andb_true_r in Hc. apply andb_true_iff in Hc.
    destruct Hc as [Hcc Hct].
    destruct (slicing fuel c nq) as [cs | |] eqn:Ec; cbn [bind] in Hp;
      try discriminate.
    destruct (slicing fuel t nq) as [ts | |] eqn:Ets; cbn [bind] in Hp;
      try discriminate.
    destruct (negb (Nat.eqb (List.length cs) (List.length ts)));
      try discriminate.
    destruct (check_distinct (combine cs ts)); cbn [bind] in Hp;
      try discriminate.
    inversion Hp; subst pairs. destruct p as [pc pz].
    pose proof (in_combine_l _ _ _ _ Hin) as Hpc.
    pose proof (in_combine_r _ _ _ _ Hin) as Hpz.
    assert (Hall : slicing fuel (PTuple [c; t]) nq = Ok (cs ++ ts)).
    { rewrite (slicing_not_tuple fuel c) in Ec
        by (apply closed_elem_not_tuple; exact Hcc).
      rewrite (slicing_not_tuple fuel t) in Ets
        by (apply closed_elem_not_tuple; exact Hct).
      unfold slicing. cbn [mapM]. rewrite Ec, Ets. cbn [bind List.concat].
      rewrite app_nil_r. reflexivity. }
    assert (Hcl : closed_spec (PTuple [c; t]) = true)
      by (simpl; rewrite Hcc, Hct; reflexivity).
    pose proof (closed_spec_bound fuel (PTuple [c; t]) nq (cs ++ ts) m
                  Hcl Hall Hm) as Hb.
    pose proof (Hb pc (in_or_app _ _ _ (or_introl Hpc))).
    pose proof (Hb pz (in_or_app _ _ _ (or_intror Hpz))).
    simpl. lia.
Qed.

Lemma inferred_count_covers_gates_witness :
  (forall l, slicing 9 (PTuple [PInt 0; PInt 2]) 3 = Ok l ->
             forall x, In x l -> 0 <= x < 3)
  /\ (forall pairs, qubit_pairs 9 (PTuple [PInt 0; PInt 2]) 3 = Ok pairs ->
                    forall p, In p pairs -> 0 <= fst p < 3 /\ 0 <= snd p < 3).
Proof.
  apply (inferred_count_covers_gates 9
           [mkGate HGate [] (PInt 1) None;
            mkGate CXGate [] (PTuple [PInt 0; PInt 2]) None]
           3 (mkGate CXGate [] (PTuple [PInt 0; PInt 2]) None)).
  - reflexivity.
  - right. left. reflexivity.
  - reflexivity.
Defined.

Lemma fold_max_acc (ys : list Z) (a y : Z) :
  fold_left Z.max ys (Z.max a y) = Z.max a (fold_left Z.max ys y).
Proof.
  revert y. induction ys as [| z ys IH]; intros y; [reflexivity |].
  cbn [fold_left]. rewrite <- Z.max_assoc. apply IH.
Qed.

Lemma py_max_default_app (xs ys : list Z) (d : Z) :
  xs <> [] -> ys <> [] ->
  py_max_default (xs ++ ys) d
  = Z.max (py_max_default xs d) (py_max_default ys d).
Proof.
  intros Hx Hy. destruct xs as [| x xs]; [congruence |].
  destruct ys as [| y ys]; [congruence |].
  cbn [app py_max_default]. rewrite fold_left_app. cbn [fold_left].
  apply fold_max_acc.
Qed.

Lemma mapM_nonempty {A B : Type} (f : A -> outcome B) l bs :
  mapM f l = Ok bs -> l <> [] -> bs <> [].
Proof.
  intros H Hl. apply mapM_length in H.
  destruct l, bs; simpl in H; congruence.
Qed.

(** X12: qubit counts compose by maximum: for two non-empty gate lists
    whose counts are [na] and [nb], the count of their concatenation is
    [max na nb]; so adding gates to a non-empty circuit never lowers its
    count. *)
Theorem find_n_qubits_app :
  forall (ga gb : list gate) (na nb : Z),
    ga <> [] -> gb <> [] ->
    find_n_qubits ga = Ok na -> find_n_qubits gb = Ok nb ->
    find_n_qubits (ga ++ gb) = Ok (Z.max na nb)
    /\ (exists n, find_n_qubits (ga ++ gb) = Ok n /\ na <= n).
Proof.
  intros ga gb na nb Ha Hb Hna Hnb.
  assert (E : find_n_qubits (ga ++ gb) = Ok (Z.max na nb)).
  { unfold find_n_qubits in *.
    destruct (mapM (fun g => get_maximum_index (targets g)) ga)
      as [ma | |] eqn:Ea; cbn [bind] in Hna; try discriminate.
    destruct (mapM (fun g => get_maximum_index (targets g)) gb)
      as [mb | |] eqn:Eb; cbn [bind] in Hnb; try discriminate.
    rewrite (mapM_app _ _ _ _ _ Ea Eb). cbn [bind].
    rewrite py_max_default_app
      by (eapply mapM_nonempty; eassumption).
    inversion Hna. inversion Hnb. f_equal. lia. }
  split; [exact E |]. exists (Z.max na nb). split; [exact E | lia].
Qed.

Lemma find_n_qubits_app_witness :
  find_n_qubits ([mkGate HGate [] (PInt 4) None]
                   ++ [mkGate XGate [] (PInt (-3)) None])
  = Ok (Z.max 5 (-2)).
Proof.
  apply (find_n_qubits_app [mkGate HGate [] (PInt 4) None]
           [mkGate XGate [] (PInt (-3)) None] 5 (-2));
    try discriminate; reflexivity.
Defined.

(** X13: where the qubit count cannot be inferred.  [get_maximum_index]
    raises a [ValueError] on the empty tuple and an [AttributeError] on a
    tuple holding an element that is neither an index nor a range, a
    nested tuple included; [find_n_qubits] passes on the exception of the
    first gate whose specifier fails.  So a two-sided specifier with a
    tuple of controls, which [qubit_pairs] resolves, makes [find_n_qubits]
    fail. *)
Theorem maximum_index_failures :
  is_value_error (get_maximum_index (PTuple [])) = true
  /\ (forall arg before after ms,
         is_int arg = false -> is_slice arg = false ->
         mapM _maximum_idx_single before = Ok ms ->
         is_attribute_error
           (get_maximum_index (PTuple (before ++ arg :: after))) = true)
  /\ (forall gs1 g gs2 ns e,
         mapM (fun g => get_maximum_index (targets g)) gs1 = Ok ns ->
         get_maximum_index (targets g) = Raise e ->
         find_n_qubits (gs1 ++ g :: gs2) = Raise e)
  /\ (forall fuel xs t n pairs c kw th,
         qubit_pairs fuel (PTuple [PTuple xs; t]) n = Ok pairs ->
         is_attribute_error
           (find_n_qubits [mkGate c kw (PTuple [PTuple xs; t]) th]) = true).
Proof.
  split; [reflexivity |]. split; [| split].
  - intros arg before after ms Hi Hs Hb. unfold get_maximum_index.
    assert (E : exists msg, _maximum_idx_single arg = Raise (AttributeError msg)).
    { destruct arg; try discriminate; eexists; reflexivity. }
    destruct E as [msg E].
    rewrite (mapM_app_raise _ _ _ _ _ _ Hb E). reflexivity.
  - intros gs1 g gs2 ns e Hns He. unfold find_n_qubits.
    rewrite (mapM_app_raise (fun g => get_maximum_index (targets g))
               _ _ _ _ _ Hns He). reflexivity.
  - intros. reflexivity.
Qed.

Lemma maximum_index_failures_witness :
  is_attribute_error
    (get_maximum_index (PTuple ([PInt 0] ++ PObj "float" :: [PInt 1]))) = true
  /\ find_n_qubits ([mkGate HGate [] (PInt 0) None]
                      ++ mkGate XGate [] (PTuple []) None :: [])
     = Raise (ValueError "max() arg is an empty sequence")
  /\ is_attribute_error
       (find_n_qubits
          [mkGate CXGate []
             (PTuple [PTuple [PInt 0; PInt 1]; PSlice (Some 2) None None]) None])
     = true.
Proof.
  destruct maximum_index_failures as (_ & Ha & Hf & Hq).
  split; [| split].
  - apply (Ha (PObj "float") [PInt 0] [PInt 1] [0]); reflexivity.
  - apply (Hf [mkGate HGate [] (PInt 0) None] _ [] [0]); reflexivity.
  - apply (Hq 5%nat [PInt 0; PInt 1] (PSlice (Some 2) None None) 4
             [(0, 2); (1, 3)]).
    reflexivity.
Defined.

(** ** Further properties of the gate classes *)

Lemma assoc_filter k (p : string * pyobj -> bool) kw :
  (forall v, p (k, v) = true) -> assoc k (filter p kw) = assoc k kw.
Proof.
  intros Hp. induction kw as [| [k' v] kw IH]; [reflexivity |].
  simpl. destruct (String.eqb_spec k k') as [<- | Hne].
  - rewrite Hp. simpl. rewrite String.eqb_refl. reflexivity.
  - destruct (p (k', v)); [| exact IH].
    simpl. destruct (String.eqb_spec k k'); [contradiction | exact IH].
Qed.

Lemma filter_filter_impl {A : Type} (p q : A -> bool) (l : list A) :
  (forall x, q x = true -> p x = true) ->
  filter p (filter q l) = filter q l.
Proof.
  intros Hpq. induction l as [| x l IH]; [reflexivity |].
  simpl. destruct (q x) eqn:Eq; [| exact IH].
  simpl. rewrite (Hpq x Eq), IH. reflexivity.
Qed.

Lemma other_keywords_targets_theta kw :
  other_keywords ["targets"%string]
    (other_keywords ["targets"%string; "theta"%string] kw)
  = other_keywords ["targets"%string; "theta"%string] kw.
Proof.
  unfold other_keywords. apply filter_filter_impl.
  intros [k v]. simpl.
  destruct (String.eqb k "targets"); [discriminate | reflexivity].
Qed.

(** X14: a constructor call that succeeds is recorded in the gate.  The
    class has a [lowername]; the gate has that class; its targets are the
    first positional argument, or the keyword [targets] when there is no
    positional argument; its keyword arguments are the keywords of the
    call that name no parameter, in order; its angle is the second
    positional argument or else the keyword [theta] for a rotation gate,
    and is absent for every other gate; and the call had no more
    positional arguments than the constructor has parameters. *)
Theorem construct_success_records_call :
  forall (c : gate_class) (args : list pyobj) (kw : list (string * pyobj))
         (g : gate),
    construct c args kw = Ok g ->
    (exists name, lowername c = Some name)
    /\ gate_cls g = c
    /\ match args with
       | a :: _ => targets g = a
       | [] => assoc "targets" kw = Some (targets g)
       end
    /\ kwargs g = other_keywords (class_params c) kw
    /\ match lookup own_init (mro c), args with
       | Some InitRotation, _ :: th :: _ => theta g = Some th
       | Some InitRotation, _ => assoc "theta" kw = theta g /\ theta g <> None
       | _, _ => theta g = None
       end
    /\ (List.length args <= List.length (class_params c))%nat.
Proof.
  intros c args kw g H.
  assert (Hgate : lookup own_init (mro c) <> Some InitRotation ->
                  Gate_call c args kw = Ok g ->
                  class_params c = ["targets"%string] ->
                  (exists name, lowername c = Some name)
                  /\ gate_cls g = c
                  /\ match args with
                     | a :: _ => targets g = a
                     | [] => assoc "targets" kw = Some (targets g)
                     end
                  /\ kwargs g = other_keywords (class_params c) kw
                  /\ theta g = None
                  /\ (List.length args <= List.length (class_params c))%nat).
  { intros _ Hg Hp. rewrite Hp.
    apply Gate_call_inv in Hg.
    destruct Hg as (Hn & Hc & Hk & Ht & Hlen & Ha).
    split; [exact Hn |]. split; [exact Hc |].
    split; [| split; [exact Hk | split; [exact Ht | exact Hlen]]].
    destruct args as [| a args].
    - simpl in Ha. rewrite assoc_filter in Ha; [exact Ha |].
      intros v. reflexivity.
    - simpl in Ha. inversion Ha. reflexivity. }
  assert (Hrot : Rotation_call c args kw = Ok g ->
                 class_params c = ["targets"%string; "theta"%string] ->
                 (exists name, lowername c = Some name)
                 /\ gate_cls g = c
                 /\ match args with
                    | a :: _ => targets g = a
                    | [] => assoc "targets" kw = Some (targets g)
                    end
                 /\ kwargs g = other_keywords (class_params c) kw
                 /\ match args with
                    | _ :: th :: _ => theta g = Some th
                    | _ => assoc "theta" kw = theta g /\ theta g <> None
                    end
                 /\ (List.length args <= List.length (class_params c))%nat).
  { intros Hr Hp. rewrite Hp. unfold Rotation_call in Hr.
    destruct (bind_call ["targets"%string; "theta"%string] args kw)
      as [[bound rest] | e |] eqn:Eb; simpl in Hr; try discriminate.
    apply bind_call_inv in Eb. destruct Eb as (Eb & -> & Hlen).
    unfold param in Hr.
    destruct (assoc "targets" bound) as [t |] eqn:Et; simpl in Hr;
      try discriminate.
    destruct (assoc "theta" bound) as [th |] eqn:Eh; simpl in Hr;
      try discriminate.
    unfold Rotation_init in Hr.
    destruct (Gate_call c [t]
                (other_keywords ["targets"%string; "theta"%string] kw))
      as [self | e |] eqn:Eg; simpl in Hr; try discriminate.
    inversion Hr; subst g. clear Hr.
    apply Gate_call_inv in Eg.
    destruct Eg as (Hn & Hc & Hk & _ & _ & Ha).
    simpl in Ha. inversion Ha as [Ha']. clear Ha.
    unfold set_theta. simpl. rewrite other_keywords_targets_theta in Hk.
    split; [exact Hn |]. split; [exact Hc |].
    split; [| split; [exact Hk | split; [| exact Hlen]]].
    - rewrite <- Ha'. subst bound. destruct args as [| a args].
      + simpl in Et. rewrite assoc_filter in Et; [exact Et |].
        intros v. reflexivity.
      + simpl in Et. inversion Et. reflexivity.
    - subst bound. destruct args as [| a [| b args]].
      + simpl in Eh. rewrite assoc_filter in Eh
          by (intros v; reflexivity).
        split; [exact Eh | discriminate].
      + simpl in Eh. rewrite assoc_filter in Eh
          by (intros v; reflexivity).
        split; [exact Eh | discriminate].
      + simpl in Eh. inversion Eh. reflexivity. }
  unfold construct in H.
  destruct c; cbn [lookup mro base own_init] in H |- *;
    first [ destruct (Hrot H eq_refl) as (H1 & H2 & H3 & H4 & H5 & H6);
            repeat split; try assumption;
            destruct args as [| a [| b args]]; exact H5
          | destruct (Hgate ltac:(discriminate) H eq_refl)
              as (H1 & H2 & H3 & H4 & H5 & H6);
            repeat split; assumption ].
Qed.

Lemma construct_success_records_call_witness :
  exists g,
    construct RZGate [PInt 0]
      [("label"%string, PObj "str"); ("theta"%string, PObj "float")] = Ok g
    /\ targets g = PInt 0
    /\ kwargs g = [("label"%string, PObj "str")]
    /\ theta g = Some (PObj "float").
Proof.
  exists (mkGate RZGate [("label"%string, PObj "str")] (PInt 0)
            (Some (PObj "float"))).
  split; [reflexivity |].
  destruct (construct_success_records_call RZGate [PInt 0]
              [("label"%string, PObj "str"); ("theta"%string, PObj "float")]
              (mkGate RZGate [("label"%string, PObj "str")] (PInt 0)
                 (Some (PObj "float"))) eq_refl)
    as (_ & _ & Ht & Hk & (Hth & _) & _).
  split; [exact Ht |]. split; [exact Hk |]. symmetry. exact Hth.
Defined.

(** X15: the canonical names tell the classes apart: two classes with the
    same [lowername] are the same class. *)
Theorem lowername_injective :
  forall (c1 c2 : gate_class) (name : string),
    lowername c1 = Some name -> lowername c2 = Some name -> c1 = c2.
Proof.
  intros c1 c2 name H1 H2.
  destruct c1; try discriminate H1;
    destruct c2; try discriminate H2; try reflexivity;
    rewrite <- H2 in H1; discriminate H1.
Qed.

Lemma lowername_injective_witness : CXGate = CXGate.
Proof.
  apply (lowername_injective CXGate CXGate "cx"); reflexivity.
Defined.

(** X16: the constructor does not look at the specifier; a bad one shows
    only when the gate is iterated.  A gate constructed with the arguments
    its class expects (and keywords that name no parameter) has exactly
    one of the two iteration methods: a one-qubit gate resolves its targets
    with [slicing] and has no [control_target_iter]; a two-qubit gate
    resolves them with [qubit_pairs] and has no [target_iter].  In
    particular a two-qubit gate built on a specifier that is not a tuple
    is constructed without complaint and raises [ValueError] when
    iterated. *)
Theorem iteration_validates_lazily :
  forall (fuel : nat) (c : gate_class) (t th : pyobj)
         (kw : list (string * pyobj)) (n : Z),
    lowername c <> None ->
    free_keywords (class_params c) kw = true ->
    exists g,
      construct c (call_args c t th) kw = Ok g
      /\ ((base c = Some OneQubitGate
           /\ target_iter fuel g n = slicing fuel t n
           /\ is_attribute_error (control_target_iter fuel g n) = true)
          \/ (base c = Some TwoQubitGate
              /\ control_target_iter fuel g n = qubit_pairs fuel t n
              /\ is_attribute_error (target_iter fuel g n) = true
              /\ (is_tuple t = false ->
                  is_value_error (control_target_iter fuel g n) = true))).
Proof.
  intros fuel c t th kw n Hname Hfree.
  destruct c; try (exfalso; apply Hname; reflexivity);
    cbn in Hfree |- *;
    first [ rewrite Gate_call_free by exact Hfree
          | rewrite Rotation_call_free by exact Hfree ];
    eexists; (split; [reflexivity |]);
    first [ left; repeat split; fail
          | right; split; [reflexivity |]; split; [reflexivity |];
            split; [reflexivity |];
            intros Ht; destruct t; try discriminate; reflexivity ].
Qed.

Lemma iteration_validates_lazily_witness :
  exists g,
    construct CZGate (call_args CZGate (PInt 0) (PInt 0)) [] = Ok g
    /\ ((base CZGate = Some OneQubitGate
         /\ target_iter 1 g 2 = slicing 1 (PInt 0) 2
         /\ is_attribute_error (control_target_iter 1 g 2) = true)
        \/ (base CZGate = Some TwoQubitGate
            /\ control_target_iter 1 g 2 = qubit_pairs 1 (PInt 0) 2
            /\ is_attribute_error (target_iter 1 g 2) = true
            /\ (is_tuple (PInt 0) = false ->
                is_value_error (control_target_iter 1 g 2) = true))).
Proof.
  apply (iteration_validates_lazily 1 CZGate (PInt 0) (PInt 0) [] 2).
  - discriminate.
  - reflexivity.
Defined.
